(** * A shallow embedding of [src/pure.js]

    The adapter mounts UI descriptions into DOM containers, remembers one
    root-handle per container in a module-level store, and tears everything
    down again in [cleanup].  The development below follows the source
    function by function: the module-level store and the DOM are fields of
    an explicit [state], every [async] function is a computation in a small
    state-and-exception monad, and the rendering runtime (react-dom) is an
    external collaborator whose calls are recorded in a trace and whose
    failures are decided by an arbitrary, history-dependent oracle. *)

From stdpp Require Import base option list gmap sets strings.

(** ** Values *)

(** DOM nodes are compared by identity; a node is its allocation number. *)
Abbreviation node := nat.

(** [document.body] *)
Definition document_body : node := 0.

(** A possibly missing property of an options object.  The distinction
    between [undefined] and [null] matters for default parameters, which
    only replace [undefined]. *)
Inductive jsopt (A : Type) : Type :=
  | Undefined
  | Null
  | Val (a : A).
Arguments Undefined {A}.
Arguments Null {A}.
Arguments Val {A} a.

(** JavaScript truthiness of an optional object reference. *)
Definition truthy {A} (v : jsopt A) : bool :=
  match v with Val _ => true | _ => false end.

(** Component types that the adapter passes to [React.createElement]. *)
Inductive component : Type :=
  | StrictMode                               (* React.StrictMode *)
  | UserComponent (name : string)            (* a caller-supplied wrapper *)
  | TestComponent (renderCallback : nat).    (* the closure built by renderHook *)

Inductive props : Type :=
  | NullProps
  | RenderCallbackProps (v : jsopt nat).

(** UI descriptions. [Markup] stands for an element written by the caller;
    [React_createElement type p child] is [React.createElement(type, p, child)]
    and [JSX type p] is the childless [<type {...p} />]. *)
Inductive element : Type :=
  | Markup (html : string)
  | JSX (type : component) (p : props)
  | React_createElement (type : component) (p : props) (child : element).

(** Calls into the rendering runtime, as they appear in the source. *)
Inductive rt_call : Type :=
  | HydrateRoot (container : node) (e : element)   (* ReactDOMClient.hydrateRoot *)
  | CreateRoot (container : node)                  (* ReactDOMClient.createRoot *)
  | RootRender (root : nat) (e : element)          (* root.render *)
  | RootUnmount (root : nat)                       (* root.unmount *)
  | LegacyHydrate (e : element) (container : node) (* ReactDOM.hydrate *)
  | LegacyRender (e : element) (container : node)  (* ReactDOM.render *)
  | LegacyUnmount (container : node).              (* ReactDOM.unmountComponentAtNode *)

(** The UI description a runtime call carries, if any. *)
Definition call_element (c : rt_call) : option element :=
  match c with
  | HydrateRoot _ e | RootRender _ e | LegacyHydrate e _ | LegacyRender e _ => Some e
  | CreateRoot _ | RootUnmount _ | LegacyUnmount _ => None
  end.

(** What can be thrown. [new Error(msg)] is [JsError msg]; [Thrown c] is
    whatever the runtime raised from call [c] (for instance an exception
    from the UI being rendered). *)
Inductive exn : Type :=
  | JsError (message : string)
  | TypeError (message : string)
  | DOMException (name : string)
  | Thrown (c : rt_call).

(** The rendering runtime: whether the single-shot mount API exists
    ([typeof ReactDOM.render === 'function']) and, given the calls made so
    far, whether the next call throws. *)
Record runtime : Type := {
  single_shot_api : bool;
  rt_throws : list rt_call → rt_call → bool
}.

(** ** Root-handles

    The object literals returned by [createConcurrentRoot] and
    [createLegacyRoot].  A handle is determined by what its closures
    capture: the [hydrate] flag and runtime root (concurrent), or the
    container (legacy).  [root_id] is the allocation number and gives
    object identity. *)
Inductive root_kind : Type :=
  | ConcurrentRoot (hydrate : bool)
  | LegacyRoot.

Record root_handle : Type := {
  root_id : nat;
  root_flavour : root_kind;
  root_container : node
}.

Record root_entry : Type := {
  entry_container : node;
  entry_root : root_handle
}.

(** ** State *)

Record state : Type := {
  reactStrictMode : bool;                  (* getConfig().reactStrictMode *)
  parentNode : gmap node node;             (* child |-> parent; absent = null *)
  tagName : gmap node string;
  nextNode : node;                         (* allocator of document.createElement *)
  mountedContainers : gset node;
  mountedRootEntries : list root_entry;
  allocatedRoots : list root_handle;       (* every root-handle ever built *)
  rtLog : list rt_call                     (* runtime calls, oldest first *)
}.

Definition set_dom (pn : gmap node node) (tn : gmap node string) (nn : node)
    (s : state) : state :=
  {| reactStrictMode := reactStrictMode s;
     parentNode := pn; tagName := tn; nextNode := nn;
     mountedContainers := mountedContainers s;
     mountedRootEntries := mountedRootEntries s;
     allocatedRoots := allocatedRoots s;
     rtLog := rtLog s |}.

Definition set_parentNode (pn : gmap node node) (s : state) : state :=
  set_dom pn (tagName s) (nextNode s) s.

Definition set_mountedContainers (mc : gset node) (s : state) : state :=
  {| reactStrictMode := reactStrictMode s;
     parentNode := parentNode s; tagName := tagName s; nextNode := nextNode s;
     mountedContainers := mc;
     mountedRootEntries := mountedRootEntries s;
     allocatedRoots := allocatedRoots s;
     rtLog := rtLog s |}.

Definition set_mountedRootEntries (es : list root_entry) (s : state) : state :=
  {| reactStrictMode := reactStrictMode s;
     parentNode := parentNode s; tagName := tagName s; nextNode := nextNode s;
     mountedContainers := mountedContainers s;
     mountedRootEntries := es;
     allocatedRoots := allocatedRoots s;
     rtLog := rtLog s |}.

Definition set_allocatedRoots (hs : list root_handle) (s : state) : state :=
  {| reactStrictMode := reactStrictMode s;
     parentNode := parentNode s; tagName := tagName s; nextNode := nextNode s;
     mountedContainers := mountedContainers s;
     mountedRootEntries := mountedRootEntries s;
     allocatedRoots := hs;
     rtLog := rtLog s |}.

Definition set_rtLog (l : list rt_call) (s : state) : state :=
  {| reactStrictMode := reactStrictMode s;
     parentNode := parentNode s; tagName := tagName s; nextNode := nextNode s;
     mountedContainers := mountedContainers s;
     mountedRootEntries := mountedRootEntries s;
     allocatedRoots := allocatedRoots s;
     rtLog := l |}.

(** The state right after the module is loaded: an empty store, no handle
    built, no runtime call made; the document and the configuration are
    whatever the test environment set up. *)
Definition initial_state (strict : bool) (pn : gmap node node)
    (tn : gmap node string) (nn : node) : state :=
  {| reactStrictMode := strict;
     parentNode := pn; tagName := tn; nextNode := nn;
     mountedContainers := ∅;
     mountedRootEntries := [];
     allocatedRoots := [];
     rtLog := [] |}.

(** ** The monad of [async] functions

    A computation transforms the state and either returns or throws; a
    throw keeps the effects performed before it.  Awaited calls run to
    completion in program order (the callers serialise their calls). *)
Inductive result (A : Type) : Type :=
  | Ok (a : A)
  | Throw (e : exn).
Arguments Ok {A} a.
Arguments Throw {A} e.

Definition M (A : Type) : Type := state → state * result A.

Definition ret {A} (a : A) : M A := λ s, (s, Ok a).
Definition throw {A} (e : exn) : M A := λ s, (s, Throw e).
Definition bind {A B} (c : M A) (k : A → M B) : M B :=
  λ s, match c s with
       | (s1, Ok a) => k a s1
       | (s1, Throw e) => (s1, Throw e)
       end.
Definition gets {A} (f : state → A) : M A := λ s, (s, Ok (f s)).
Definition modify (f : state → state) : M unit := λ s, (f s, Ok tt).

Notation "'let*' x ':=' c 'in' k" := (bind c (λ x, k))
  (at level 10, x name, c at level 200, k at level 200).
Notation "c '>>' k" := (bind c (λ _, k))
  (at level 100, k at level 200, right associativity).

(** A promise that has settled: the computation ran, its outcome is kept
    as a value instead of being thrown. *)
Definition settle {A} (c : M A) : M (result A) :=
  λ s, let '(s1, r) := c s in (s1, Ok r).

(** [Promise.all] over promises that were started in list order. *)
Fixpoint Promise_all {A} (settled : list (result A)) : result (list A) :=
  match settled with
  | [] => Ok []
  | Throw e :: _ => Throw e
  | Ok a :: rest =>
      match Promise_all rest with
      | Ok l => Ok (a :: l)
      | Throw e => Throw e
      end
  end.

Definition await_result {A} (r : result A) : M A := λ s, (s, r).

Fixpoint mapM {A B} (f : A → M B) (l : list A) : M (list B) :=
  match l with
  | [] => ret []
  | a :: rest => let* b := f a in let* bs := mapM f rest in ret (b :: bs)
  end.

(** ** The document *)

(** [document.createElement(tag)] *)
Definition document_createElement (tag : string) : M node :=
  λ s, let n := nextNode s in
       (set_dom (parentNode s) (<[n := tag]> (tagName s)) (S n) s, Ok n).

(** [parent.appendChild(child)] returns the appended child. *)
Definition appendChild (parent child : node) : M node :=
  λ s, (set_parentNode (<[child := parent]> (parentNode s)) s, Ok child).

(** [parent.removeChild(child)] throws when [child] is not a child of
    [parent]. *)
Definition removeChild (parent child : node) : M node :=
  λ s, if decide (parentNode s !! child = Some parent)
       then (set_parentNode (delete child (parentNode s)) s, Ok child)
       else (s, Throw (DOMException "NotFoundError")).

(** ** Error messages *)

Definition legacyRootMessage : string :=
  "`legacyRoot: true` is not supported in this version of React. " +:+
  "If your app runs React 19 or later, you should remove this flag. " +:+
  "If your app runs React 18 or earlier, visit https://react.dev/blog/2022/03/08/react-18-upgrade-guide for upgrade instructions.".

Definition nonHydrateableMessage : string :=
  "Attempted to hydrate a non-hydrateable root. This is a bug in `@testing-library/react`.".

(** ** Options and results *)

Record render_options : Type := {
  opt_container : jsopt node;
  opt_baseElement : jsopt node;
  opt_legacyRoot : bool;
  opt_queries : option nat;
  opt_hydrate : bool;
  opt_wrapper : option component
}.

(** [{}] *)
Definition no_options : render_options :=
  {| opt_container := Undefined; opt_baseElement := Undefined;
     opt_legacyRoot := false; opt_queries := None;
     opt_hydrate := false; opt_wrapper := None |}.

(** The second argument of [renderRoot]. *)
Record root_options : Type := {
  ro_baseElement : node;
  ro_container : node;
  ro_hydrate : bool;
  ro_queries : option nat;
  ro_root : option root_handle;     (* [None]: the variable is undefined *)
  ro_wrapper : option component
}.

(** The bundle returned by [renderRoot]: what is stored in it and what
    its closures capture.  The query helpers, [debug] and [asFragment]
    belong to the DOM query library and to the document and are not
    part of the model. *)
Record render_result : Type := {
  rr_container : node;
  rr_baseElement : node;
  rr_root : option root_handle;
  rr_wrapper : option component;
  rr_queries : option nat
}.

Record hook_options : Type := {
  initialProps : jsopt nat;
  renderOptions : render_options
}.

(** What [renderHook] returns; [hook_base] is the render result whose
    [rerender] and [unmount] the returned closures capture.  The value of
    [result.current] is written by the runtime when it commits the test
    component and is outside the model. *)
Record hook_result : Type := {
  hook_callback : nat;
  hook_base : render_result
}.

Section Adapter.

Variable rt : runtime.

(** A call into the runtime is appended to the trace and throws when
    the runtime says so.  The document of the state holds the elements
    that the adapter itself handles (the body, base elements and
    containers); what the runtime renders into a container or removes
    from it is not part of it, and the runtime is taken not to move a
    container or a base element. *)
Definition runtime_call (c : rt_call) : M unit :=
  λ s, (set_rtLog (rtLog s ++ [c]) s,
        if rt_throws rt (rtLog s) c then Throw (Thrown c) else Ok tt).

(** Modelled from the spec: [act] lives in [./act-compat], which is not
    among the sources.  It runs the callback and flushes the scheduled
    work before it returns; an exception of the callback reaches the
    caller.  The flush leaves the modelled state as it is. *)
Definition act {A} (callback : M A) : M A := callback.

(** Modelled from the spec: [getConfig] lives in [./config], which is
    not among the sources; the globally configured strict-mode flag is
    read from the state. *)
Definition getConfig_reactStrictMode : M bool := gets reactStrictMode.

(** *** Decoration *)

Definition strictModeIfNeeded (innerElement : element) : M element :=
  let* strict := getConfig_reactStrictMode in
  ret (if strict
       then React_createElement StrictMode NullProps innerElement
       else innerElement).

Definition wrapUiIfNeeded (innerElement : element)
    (wrapperComponent : option component) : element :=
  match wrapperComponent with
  | Some w => React_createElement w NullProps innerElement
  | None => innerElement
  end.

(** *** Root factories *)

(** The [return {...}] of a factory: a new object. *)
Definition new_root (k : root_kind) (container : node) : M root_handle :=
  λ s, let h := {| root_id := length (allocatedRoots s);
                   root_flavour := k; root_container := container |} in
       (set_allocatedRoots (allocatedRoots s ++ [h]) s, Ok h).

Definition createConcurrentRoot (container : node) (hydrate : bool)
    (ui : element) (wrapper : option component) : M root_handle :=
  (if hydrate
   then act (let* e := strictModeIfNeeded (wrapUiIfNeeded ui wrapper) in
             runtime_call (HydrateRoot container e))
   else runtime_call (CreateRoot container)) >>
  new_root (ConcurrentRoot hydrate) container.

Definition createLegacyRoot (container : node) : M root_handle :=
  new_root LegacyRoot container.

(** *** Methods of a root-handle *)

Definition root_hydrate (root : root_handle) (e : element) : M unit :=
  match root_flavour root with
  | ConcurrentRoot hydrate =>
      if negb hydrate
      then throw (JsError nonHydrateableMessage)
      else ret tt
  | LegacyRoot => act (runtime_call (LegacyHydrate e (root_container root)))
  end.

Definition root_render (root : root_handle) (e : element) : M unit :=
  match root_flavour root with
  | ConcurrentRoot _ => act (runtime_call (RootRender (root_id root) e))
  | LegacyRoot => act (runtime_call (LegacyRender e (root_container root)))
  end.

Definition root_unmount (root : root_handle) : M unit :=
  match root_flavour root with
  | ConcurrentRoot _ => act (runtime_call (RootUnmount (root_id root)))
  | LegacyRoot => act (runtime_call (LegacyUnmount (root_container root)))
  end.

(** Calling a method on a variable that may be [undefined]. *)
Definition method {A} (root : option root_handle) (name : string)
    (m : root_handle → M A) : M A :=
  match root with
  | Some h => m h
  | None => throw (TypeError ("Cannot read properties of undefined (reading '" +:+ name +:+ "')"))
  end.

(** *** renderRoot *)

Definition renderRoot (ui : element) (o : root_options) : M render_result :=
  (if ro_hydrate o
   then let* e := strictModeIfNeeded (wrapUiIfNeeded ui (ro_wrapper o)) in
        method (ro_root o) "hydrate" (λ root, root_hydrate root e)
   else let* e := strictModeIfNeeded (wrapUiIfNeeded ui (ro_wrapper o)) in
        method (ro_root o) "render" (λ root, root_render root e)) >>
  ret {| rr_container := ro_container o;
         rr_baseElement := ro_baseElement o;
         rr_root := ro_root o;
         rr_wrapper := ro_wrapper o;
         rr_queries := ro_queries o |}.

(** The [unmount] closure of a render result. *)
Definition unmount (b : render_result) : M unit :=
  method (rr_root b) "unmount" root_unmount.

(** The [rerender] closure of a render result: [hydrate] and [queries]
    are not passed on, and nothing is returned. *)
Definition rerender (b : render_result) (rerenderUi : element) : M unit :=
  renderRoot rerenderUi
    {| ro_container := rr_container b;
       ro_baseElement := rr_baseElement b;
       ro_hydrate := false;
       ro_queries := None;
       ro_root := rr_root b;
       ro_wrapper := rr_wrapper b |} >>
  ret tt.

(** *** render *)

(** The [forEach] of the reuse branch: every entry whose container is
    the given one overwrites [root]. *)
Definition find_root (container : node) (entries : list root_entry)
    : option root_handle :=
  foldl (λ root rootEntry,
           if decide (entry_container rootEntry = container)
           then Some (entry_root rootEntry)
           else root)
        None entries.

Definition render (ui : element) (options : render_options) : M render_result :=
  let container := opt_container options in
  let baseElement :=
    match opt_baseElement options with
    | Undefined => container          (* baseElement = container *)
    | v => v
    end in
  let legacyRoot := opt_legacyRoot options in
  let hydrate := opt_hydrate options in
  let wrapper := opt_wrapper options in
  if legacyRoot && negb (single_shot_api rt)
  then throw (JsError legacyRootMessage)
  else
    let* baseElement :=
      match baseElement with
      | Val b => ret b
      | _ => ret document_body
      end in
    let* container :=
      match container with
      | Val c => ret c
      | _ => let* div := document_createElement "div" in
             appendChild baseElement div
      end in
    let* tracked := gets (λ s, bool_decide (container ∈ mountedContainers s)) in
    let* root :=
      if negb tracked
      then
        let* root :=
          (if legacyRoot
           then createLegacyRoot container
           else createConcurrentRoot container hydrate ui wrapper) in
        modify (λ s, set_mountedRootEntries
                       (mountedRootEntries s ++
                          [{| entry_container := container; entry_root := root |}]) s) >>
        modify (λ s, set_mountedContainers ({[container]} ∪ mountedContainers s) s) >>
        ret (Some root)
      else gets (λ s, find_root container (mountedRootEntries s)) in
    renderRoot ui
      {| ro_container := container;
         ro_baseElement := baseElement;
         ro_queries := opt_queries options;
         ro_hydrate := hydrate;
         ro_wrapper := wrapper;
         ro_root := root |}.

(** *** cleanup *)

(** The callback mapped over the entries. *)
Definition cleanup_entry (e : root_entry) : M unit :=
  act (root_unmount (entry_root e)) >>
  let* parent := gets (λ s, parentNode s !! entry_container e) in
  if decide (parent = Some document_body)
  then removeChild document_body (entry_container e) >> ret tt
  else ret tt.

(** Every callback is started, in the order of the entries, whether or
    not an earlier one failed; [Promise.all] is awaited and only then
    the store is emptied. *)
Definition cleanup : M unit :=
  let* entries := gets mountedRootEntries in
  let* settled := mapM (λ e, settle (cleanup_entry e)) entries in
  await_result (Promise_all settled) >>
  modify (set_mountedRootEntries []) >>
  modify (set_mountedContainers ∅).

(** *** renderHook *)

Definition renderHook (renderCallback : nat) (options : hook_options)
    : M hook_result :=
  if opt_legacyRoot (renderOptions options) && negb (single_shot_api rt)
  then throw (JsError legacyRootMessage)
  else
    let* b := render (JSX (TestComponent renderCallback)
                          (RenderCallbackProps (initialProps options)))
                     (renderOptions options) in
    ret {| hook_callback := renderCallback; hook_base := b |}.

(** The [rerender] and [unmount] of a hook result. *)
Definition hook_rerender (h : hook_result) (rerenderCallbackProps : jsopt nat)
    : M unit :=
  rerender (hook_base h)
    (JSX (TestComponent (hook_callback h))
         (RenderCallbackProps rerenderCallbackProps)).

Definition hook_unmount (h : hook_result) : M unit := unmount (hook_base h).

(** ** Sequences of calls to the public surface *)

Inductive call : Type :=
  | CallRender (ui : element) (options : render_options)
  | CallRenderHook (renderCallback : nat) (options : hook_options)
  | CallRerender (b : render_result) (ui : element)
  | CallUnmount (b : render_result)
  | CallHookRerender (h : hook_result) (p : jsopt nat)
  | CallHookUnmount (h : hook_result)
  | CallCleanup.

Inductive outcome : Type :=
  | Rendered (r : result render_result)
  | Hooked (r : result hook_result)
  | Done (r : result unit).

Definition perform (c : call) (s : state) : state * outcome :=
  match c with
  | CallRender ui o => let '(s1, r) := render ui o s in (s1, Rendered r)
  | CallRenderHook cb o => let '(s1, r) := renderHook cb o s in (s1, Hooked r)
  | CallRerender b ui => let '(s1, r) := rerender b ui s in (s1, Done r)
  | CallUnmount b => let '(s1, r) := unmount b s in (s1, Done r)
  | CallHookRerender h p => let '(s1, r) := hook_rerender h p s in (s1, Done r)
  | CallHookUnmount h => let '(s1, r) := hook_unmount h s in (s1, Done r)
  | CallCleanup => let '(s1, r) := cleanup s in (s1, Done r)
  end.

(** The calls are awaited one after the other; a call that throws does
    not stop the test from making the next one. *)
Fixpoint run (calls : list call) (s : state) : state * list outcome :=
  match calls with
  | [] => (s, [])
  | c :: rest =>
      let '(s1, o) := perform c s in
      let '(s2, os) := run rest s1 in
      (s2, o :: os)
  end.

End Adapter.

(** ** Fixtures for the concrete runs *)

(** A runtime in which nothing throws. *)
Definition quiet_runtime (api : bool) : runtime :=
  {| single_shot_api := api; rt_throws := λ _ _, false |}.

(** A runtime in which exactly the unmount of runtime root [n] throws. *)
Definition unmount_fails (n : nat) : runtime :=
  {| single_shot_api := false;
     rt_throws := λ _ c, match c with
                         | RootUnmount m => bool_decide (m = n)
                         | _ => false
                         end |}.

(** A document made of [<html>] (node 1) and [<body>] (node 0). *)
Definition empty_document : state :=
  initial_state false {[0 := 1]} {[0 := "body"; 1 := "html"]} 2.

(** The same document with a [<div>] (node 2) that the test appended to
    the body and a detached [<div>] (node 3). *)
Definition document_with_divs : state :=
  initial_state false {[0 := 1; 2 := 0]}
    {[0 := "body"; 1 := "html"; 2 := "div"; 3 := "div"]} 4.

Definition with_container (c : node) : render_options :=
  {| opt_container := Val c; opt_baseElement := Undefined;
     opt_legacyRoot := false; opt_queries := None;
     opt_hydrate := false; opt_wrapper := None |}.

Definition with_hydrate (c : node) : render_options :=
  {| opt_container := Val c; opt_baseElement := Undefined;
     opt_legacyRoot := false; opt_queries := None;
     opt_hydrate := true; opt_wrapper := None |}.

Definition with_legacyRoot : render_options :=
  {| opt_container := Undefined; opt_baseElement := Undefined;
     opt_legacyRoot := true; opt_queries := None;
     opt_hydrate := false; opt_wrapper := None |}.

(** ** Relations between the state before and after a computation *)

(** Every run of [c] relates the state it starts in to the state it ends
    in, whether it returns or throws. *)
Definition preserves (R : state → state → Prop) {A} (c : M A) : Prop :=
  ∀ s s' r, c s = (s', r) → R s s'.

Definition same_store (s s' : state) : Prop :=
  mountedContainers s' = mountedContainers s ∧
  mountedRootEntries s' = mountedRootEntries s.

Definition same_dom (s s' : state) : Prop :=
  parentNode s' = parentNode s ∧ tagName s' = tagName s ∧
  nextNode s' = nextNode s.

Definition same_roots (s s' : state) : Prop :=
  allocatedRoots s' = allocatedRoots s.

Definition same_config (s s' : state) : Prop :=
  reactStrictMode s' = reactStrictMode s.

Definition same_parents (s s' : state) : Prop :=
  parentNode s' = parentNode s.


(** Nothing but the runtime trace differs. *)
Definition only_runtime (s s' : state) : Prop :=
  same_store s s' ∧ same_dom s s' ∧ same_roots s s' ∧ same_config s s'.

(** ** The decoration, in the words of the specification

    The wrapper component, when there is one, is applied first and is the
    innermost layer; the strict-mode marker, when strict mode is
    configured, is applied second and is the outermost layer; with neither
    the UI description is passed through. *)
Definition decoration_spec (strict : bool) (wrapper : option component)
    (ui : element) : element :=
  match wrapper, strict with
  | Some w, true =>
      React_createElement StrictMode NullProps (React_createElement w NullProps ui)
  | Some w, false => React_createElement w NullProps ui
  | None, true => React_createElement StrictMode NullProps ui
  | None, false => ui
  end.

(** The runtime calls made between [s] and [s'] that carry a UI
    description all carry [e]. *)
Definition mounts_only (e : element) (s s' : state) : Prop :=
  ∃ new, rtLog s' = rtLog s ++ new ∧
         ∀ c e', c ∈ new → call_element c = Some e' → e' = e.

(** Under configuration [strict], which stays in force, every UI
    description handed to the runtime is [ui] decorated as the
    specification says. *)
Definition carries (strict : bool) (wrapper : option component) (ui : element)
    (s s' : state) : Prop :=
  reactStrictMode s = strict →
  reactStrictMode s' = strict ∧
  mounts_only (decoration_spec strict wrapper ui) s s'.

(** Neither the runtime trace nor the configuration differs. *)
Definition same_trace (s s' : state) : Prop :=
  rtLog s' = rtLog s ∧ reactStrictMode s' = reactStrictMode s.

(** The runtime call behind the [render] method of a handle. *)
Definition mount_call (root : root_handle) (e : element) : rt_call :=
  match root_flavour root with
  | ConcurrentRoot _ => RootRender (root_id root) e
  | LegacyRoot => LegacyRender e (root_container root)
  end.

(** Every exception that [c] can throw satisfies [P]. *)
Definition throws_only (P : exn → Prop) {A} (c : M A) : Prop :=
  ∀ s s' e, c s = (s', Throw e) → P e.

(** The configuration error of the legacy-root capability check. *)
Definition legacy_root_unsupported : exn := JsError legacyRootMessage.

(** The capability check shared by [render] and [renderHook]. *)
Definition legacy_check_fails (rt : runtime) (o : render_options) : bool :=
  opt_legacyRoot o && negb (single_shot_api rt).

(** ** More fixtures *)

(** The empty document with strict mode configured. *)
Definition strict_document : state :=
  initial_state true {[0 := 1]} {[0 := "body"; 1 := "html"]} 2.

(** A concurrent root-handle for node 2, not built for hydration. *)
Definition plain_root : root_handle :=
  {| root_id := 0; root_flavour := ConcurrentRoot false; root_container := 2 |}.

Definition wrapped_options : root_options :=
  {| ro_baseElement := 0; ro_container := 2; ro_hydrate := false;
     ro_queries := None; ro_root := Some plain_root;
     ro_wrapper := Some (UserComponent "Provider") |}.

(** The bundle a first [render] with the default options returns in the
    empty document. *)
Definition first_bundle : render_result :=
  {| rr_container := 2; rr_baseElement := 0; rr_root := Some plain_root;
     rr_wrapper := None; rr_queries := None |}.

(** The state that first [render] leaves. *)
Definition after_first_render : state :=
  fst (render (quiet_runtime false) (Markup "<span>hi</span>") no_options
         empty_document).

(** ** The steps of [render], named

    [render_unfold] below shows that [render] is the capability check
    followed by these steps. *)

(** The base element after both defaults have been applied. *)
Definition resolved_baseElement (o : render_options) : node :=
  match opt_baseElement o with
  | Val b => b
  | Null => document_body
  | Undefined =>
      match opt_container o with
      | Val c => c
      | _ => document_body
      end
  end.

(** The container: the given one, or a new [div] appended to the base
    element. *)
Definition resolve_container (baseElement : node) (container : jsopt node) : M node :=
  match container with
  | Val c => ret c
  | _ => let* div := document_createElement "div" in
         appendChild baseElement div
  end.

(** The root-handle: built and recorded when the container is not in the
    set, looked up in the entries otherwise. *)
Definition obtain_root (rt : runtime) (container : node) (legacyRoot hydrate : bool)
    (ui : element) (wrapper : option component) : M (option root_handle) :=
  let* tracked := gets (λ s, bool_decide (container ∈ mountedContainers s)) in
  if negb tracked
  then
    let* root :=
      (if legacyRoot
       then createLegacyRoot container
       else createConcurrentRoot rt container hydrate ui wrapper) in
    modify (λ s, set_mountedRootEntries
                   (mountedRootEntries s ++
                      [{| entry_container := container; entry_root := root |}]) s) >>
    modify (λ s, set_mountedContainers ({[container]} ∪ mountedContainers s) s) >>
    ret (Some root)
  else gets (λ s, find_root container (mountedRootEntries s)).

(** ** The effect of [cleanup] on the document *)

(** What the callback of [cleanup] does to the parent links once the
    unmount has completed. *)
Definition detach (pn : gmap node node) (container : node) : gmap node node :=
  if decide (pn !! container = Some document_body)
  then delete container pn
  else pn.

(** The containers of the tracked entries, in order. *)
Definition tracked_containers (s : state) : list node :=
  entry_container <$> mountedRootEntries s.

(** ** Statements of the specification that the code does not satisfy *)


(** An omitted [baseElement] is the body; an omitted [container] is a new
    [div] under the base element. *)
Definition baseElement_defaults_to_body : Prop :=
  ∀ rt ui o s s' b,
    render rt ui o s = (s', Ok b) →
    (opt_baseElement o = Undefined → rr_baseElement b = document_body) ∧
    (opt_container o = Undefined →
     rr_container b = nextNode s ∧
     tagName s' !! rr_container b = Some "div" ∧
     parentNode s' !! rr_container b = Some (rr_baseElement b)).

(** ** The invariant of the store *)

(** The set and the entry sequence are in bijection: no container has two
    entries, and the containers of the entries are the members of the
    set. *)
Definition store_bijection (s : state) : Prop :=
  NoDup (tracked_containers s) ∧
  ∀ c, c ∈ mountedContainers s ↔ c ∈ tracked_containers s.

(** The batch of callbacks that [cleanup] starts. *)
Definition start_all (rt : runtime) (entries : list root_entry)
    : M (list (result unit)) :=
  mapM (λ e, settle (cleanup_entry rt e)) entries.

(** Neither the store nor the list of root-handles differs. *)
Definition same_registry (s s' : state) : Prop :=
  same_store s s' ∧ same_roots s s'.

(** The state after two [render]s with the default options, in a runtime
    where the unmount of the first root will throw. *)
Definition after_two_renders : state :=
  fst (run (unmount_fails 0)
         [CallRender (Markup "<span>hi</span>") no_options;
          CallRender (Markup "<p>there</p>") no_options]
         empty_document).

(** ** Root-handles and the store *)

(** Every root-handle built so far is recorded in the store, for the
    container it was built for. *)
Definition roots_recorded (s : state) : Prop :=
  allocatedRoots s = entry_root <$> mountedRootEntries s ∧
  ∀ e, e ∈ mountedRootEntries s → root_container (entry_root e) = entry_container e.

(** The entry sequence was only extended. *)
Definition entries_grow (s s' : state) : Prop :=
  ∃ more, mountedRootEntries s' = mountedRootEntries s ++ more.

(** The render result that a call returned, if it returned one. *)
Definition outcome_bundle (o : outcome) : option render_result :=
  match o with
  | Rendered (Ok b) => Some b
  | Hooked (Ok h) => Some (hook_base h)
  | _ => None
  end.

Definition is_cleanup (c : call) : bool :=
  match c with CallCleanup => true | _ => false end.

(** The render result [b] holds a root-handle, and the store of [s] has
    the entry that pairs it with the container of [b]. *)
Definition bundle_recorded (s : state) (b : render_result) : Prop :=
  ∃ h, rr_root b = Some h ∧
       {| entry_container := rr_container b; entry_root := h |}
         ∈ mountedRootEntries s.

(** ** The rest of the adapter *)

(** The runtime call behind the [unmount] method of a handle. *)
Definition unmount_call (root : root_handle) : rt_call :=
  match root_flavour root with
  | ConcurrentRoot _ => RootUnmount (root_id root)
  | LegacyRoot => LegacyUnmount (root_container root)
  end.

(** The runtime calls of a [render] that builds the root-handle, by mode:
    a legacy root is mounted or hydrated by the single-shot API; a
    concurrent root is hydrated when it is created and not mounted again,
    or created empty and then rendered into. *)
Definition first_render_calls (container : node) (legacyRoot hydrate : bool)
    (root : root_handle) (e : element) : list rt_call :=
  if legacyRoot
  then [if hydrate then LegacyHydrate e container else LegacyRender e container]
  else if hydrate
       then [HydrateRoot container e]
       else [CreateRoot container; RootRender (root_id root) e].

(** The container a [render] works on: the given one, or the element the
    allocator hands out next. *)
Definition resolved_container (o : render_options) (s : state) : node :=
  match opt_container o with
  | Val c => c
  | _ => nextNode s
  end.

(** The options with another [legacyRoot]. *)
Definition set_legacyRoot (legacyRoot : bool) (o : render_options) : render_options :=
  {| opt_container := opt_container o;
     opt_baseElement := opt_baseElement o;
     opt_legacyRoot := legacyRoot;
     opt_queries := opt_queries o;
     opt_hydrate := opt_hydrate o;
     opt_wrapper := opt_wrapper o |}.

(** The allocator of the document never goes back. *)
Definition allocator_grows (s s' : state) : Prop := nextNode s ≤ nextNode s'.

(** The exceptions of the adapter's own making and of the runtime. *)
Definition is_creation_call (c : rt_call) : bool :=
  match c with
  | CreateRoot _ | HydrateRoot _ _ => true
  | _ => false
  end.

(** [c] is the call the runtime was in when it threw: the trace ends
    with it. *)
Definition thrown_by_last_call (rt : runtime) (c : rt_call) (s' : state) : Prop :=
  ∃ before, rtLog s' = before ++ [c] ∧ rt_throws rt before c = true.

(** A store whose set has a container that no entry has: the situation
    that the comment in the reuse branch of [render] calls unreachable. *)
Definition orphan_container : state :=
  set_mountedContainers {[7]} document_with_divs.

(** *** The [asyncWrapper] given to the DOM query library

    The wrapper reads and writes the flag [IS_REACT_ACT_ENVIRONMENT]; the
    callback is any computation over the flag and the adapter state. *)
Record act_world : Type := {
  IS_REACT_ACT_ENVIRONMENT : bool;
  adapter_state : state
}.

Definition W (A : Type) : Type := act_world → act_world * result A.

(** Modelled from the spec: [getIsReactActEnvironment] and
    [setReactActEnvironment] live in [./act-compat], which is not among
    the sources; they are the getter and the setter of the environment
    flag. *)
Definition getIsReactActEnvironment (w : act_world) : bool :=
  IS_REACT_ACT_ENVIRONMENT w.

Definition setReactActEnvironment (v : bool) (w : act_world) : act_world :=
  {| IS_REACT_ACT_ENVIRONMENT := v; adapter_state := adapter_state w |}.

(** [try { return await cb() } finally { setReactActEnvironment(previous) }] *)
Definition asyncWrapper {A} (cb : W A) : W A :=
  λ w,
    let previousActEnvironment := getIsReactActEnvironment w in
    let '(w1, r) := cb (setReactActEnvironment false w) in
    (setReactActEnvironment previousActEnvironment w1, r).

(** A callback that leaves the flag set and throws. *)
Definition rude_callback : W unit :=
  λ w, (setReactActEnvironment true w, Throw (JsError "boom")).

(** The runtime call with which a concurrent root is created. *)
Definition creation_call (container : node) (hydrate : bool) (e : element) : rt_call :=
  if hydrate then HydrateRoot container e else CreateRoot container.

(** The runtime call that [renderRoot] makes through the root-handle, if
    it makes one: the [hydrate] method of a concurrent root makes none. *)
Definition handle_call (root : root_handle) (hydrate : bool) (e : element)
    : option rt_call :=
  if hydrate
  then match root_flavour root with
       | LegacyRoot => Some (LegacyHydrate e (root_container root))
       | ConcurrentRoot _ => None
       end
  else Some (mount_call root e).

(** The result that [renderRoot] builds. *)
Definition bundle_of (o : root_options) : render_result :=
  {| rr_container := ro_container o;
     rr_baseElement := ro_baseElement o;
     rr_root := ro_root o;
     rr_wrapper := ro_wrapper o;
     rr_queries := ro_queries o |}.

(** The state after a factory has built [h] for [container] and [render]
    has recorded it. *)
Definition record_root (container : node) (h : root_handle) (s : state) : state :=
  set_mountedContainers ({[container]} ∪ mountedContainers s)
    (set_mountedRootEntries
       (mountedRootEntries s ++
          [{| entry_container := container; entry_root := h |}])
       (set_allocatedRoots (allocatedRoots s ++ [h]) s)).

(** The handle that a factory builds in state [s]. *)
Definition next_root (container : node) (legacyRoot hydrate : bool) (s : state)
    : root_handle :=
  {| root_id := length (allocatedRoots s);
     root_flavour := if legacyRoot then LegacyRoot else ConcurrentRoot hydrate;
     root_container := container |}.

(** The store after a first [render] with [hydrate: true] into node 2. *)
Definition after_hydrating_render : state :=
  fst (render (quiet_runtime false) (Markup "<span>hi</span>") (with_hydrate 2)
         document_with_divs).

(** A runtime in which creating a root throws. *)
Definition creation_fails : runtime :=
  {| single_shot_api := false; rt_throws := λ _ c, is_creation_call c |}.

(** ** Renders that overlap

    [render] suspends at [await createRootImpl(...)], after the container
    has been looked up in the set and before the new root-handle is
    recorded.  A caller that does not await a [render] before it makes
    the next call lets the second call run while the first is suspended
    there.  The section cuts [render] at this await; [render_cut] below
    shows that the two halves, run one after the other, are [render]. *)

(** A [render] on its way: suspended with the root-handle that the
    factory has built for a container that was not in the set, or past
    the lookup of the reuse branch. *)
Inductive pending_render : Type :=
  | AwaitingRoot (container baseElement : node) (root : root_handle)
  | HasRoot (container baseElement : node) (root : option root_handle).

Section Overlap.

Variable rt : runtime.

(** From the call to the await: the capability check, the defaults, the
    lookup in the set and, for a container that is not in it, the
    factory. *)
Definition render_until_await (ui : element) (options : render_options)
    : M pending_render :=
  if legacy_check_fails rt options
  then throw legacy_root_unsupported
  else
    let baseElement := resolved_baseElement options in
    let* container := resolve_container baseElement (opt_container options) in
    let* tracked := gets (λ s, bool_decide (container ∈ mountedContainers s)) in
    if negb tracked
    then
      let* root :=
        (if opt_legacyRoot options
         then createLegacyRoot container
         else createConcurrentRoot rt container (opt_hydrate options) ui
                (opt_wrapper options)) in
      ret (AwaitingRoot container baseElement root)
    else
      let* root := gets (λ s, find_root container (mountedRootEntries s)) in
      ret (HasRoot container baseElement root).

(** From the await to the end: the new root-handle is recorded, and
    [renderRoot] mounts. *)
Definition render_after_await (ui : element) (options : render_options)
    (p : pending_render) : M render_result :=
  match p with
  | AwaitingRoot container baseElement root =>
      modify (λ s, set_mountedRootEntries
                     (mountedRootEntries s ++
                        [{| entry_container := container; entry_root := root |}]) s) >>
      modify (λ s, set_mountedContainers ({[container]} ∪ mountedContainers s) s) >>
      renderRoot rt ui
        {| ro_container := container;
           ro_baseElement := baseElement;
           ro_queries := opt_queries options;
           ro_hydrate := opt_hydrate options;
           ro_wrapper := opt_wrapper options;
           ro_root := Some root |}
  | HasRoot container baseElement root =>
      renderRoot rt ui
        {| ro_container := container;
           ro_baseElement := baseElement;
           ro_queries := opt_queries options;
           ro_hydrate := opt_hydrate options;
           ro_wrapper := opt_wrapper options;
           ro_root := root |}
  end.

(** What the test does: it calls [render], which runs to its await, or
    it lets the [k]-th of the suspended renders run to its end. *)
Inductive event : Type :=
  | Call (ui : element) (options : render_options)
  | Continue (k : nat).

(** The state after the events, the results of the renders that ended,
    and the renders that are still suspended. *)
Fixpoint overlap (events : list event)
    (suspended : list (element * render_options * pending_render)) (s : state)
    : state * list (result render_result)
      * list (element * render_options * pending_render) :=
  match events with
  | [] => (s, [], suspended)
  | Call ui options :: rest =>
      match render_until_await ui options s with
      | (s1, Ok p) => overlap rest (suspended ++ [(ui, options, p)]) s1
      | (s1, Throw e) =>
          let '(s2, outs, still) := overlap rest suspended s1 in
          (s2, Throw e :: outs, still)
      end
  | Continue k :: rest =>
      match suspended !! k with
      | Some (ui, options, p) =>
          let '(s1, r) := render_after_await ui options p s in
          let '(s2, outs, still) := overlap rest (delete k suspended) s1 in
          (s2, r :: outs, still)
      | None => overlap rest suspended s
      end
  end.

End Overlap.

(** C1 as the specification states it, for renders that may overlap: when
    every render has ended, no two root-handles were built for one
    container. *)
Definition one_root_per_container_overlapping : Prop :=
  ∀ rt events strict pn tn nn s outs,
    overlap rt events [] (initial_state strict pn tn nn) = (s, outs, []) →
    NoDup (root_container <$> allocatedRoots s).

(** C8 as the specification states it, for renders that may overlap: when
    every render has ended, the set and the entries are in bijection. *)
Definition store_bijection_overlapping : Prop :=
  ∀ rt events strict pn tn nn s outs,
    overlap rt events [] (initial_state strict pn tn nn) = (s, outs, []) →
    store_bijection s.

(** Two renders into node 2, the second called while the first is
    suspended. *)
Definition two_overlapping_renders : list event :=
  [Call (Markup "<span>hi</span>") (with_container 2);
   Call (Markup "<span>bye</span>") (with_container 2);
   Continue 0;
   Continue 0].

(** ** Fixtures for the revised statements *)

(** Has runtime root [i] been unmounted in the calls made so far? *)
Definition unmounted (i : nat) (log : list rt_call) : bool :=
  existsb (λ c, match c with
                | RootUnmount j => Nat.eqb i j
                | _ => false
                end) log.

(** A runtime that refuses to render into a root that was unmounted. *)
Definition refuses_unmounted : runtime :=
  {| single_shot_api := false;
     rt_throws := λ log c, match c with
                           | RootRender i _ => unmounted i log
                           | _ => false
                           end |}.


(** ** Reasoning about computations *)

Lemma bind_inv {A B} (c : M A) (k : A → M B) s s' r :
  bind c k s = (s', r) →
  (∃ s1 a, c s = (s1, Ok a) ∧ k a s1 = (s', r)) ∨
  (∃ e, c s = (s', Throw e) ∧ r = Throw e).
Proof.
  unfold bind. destruct (c s) as [s1 [a|e]]; intros H.
  - left. eauto.
  - right. inversion H; subst. eauto.
Qed.

Lemma bind_Ok_inv {A B} (c : M A) (k : A → M B) s s' b :
  bind c k s = (s', Ok b) →
  ∃ s1 a, c s = (s1, Ok a) ∧ k a s1 = (s', Ok b).
Proof.
  intros H. apply bind_inv in H as [H|(e & _ & H)]; [done | discriminate].
Qed.

Lemma bind_Ok {A B} (c : M A) (k : A → M B) s s1 a :
  c s = (s1, Ok a) → bind c k s = k a s1.
Proof. unfold bind. by intros ->. Qed.

Lemma bind_Throw {A B} (c : M A) (k : A → M B) s s1 e :
  c s = (s1, Throw e) → bind c k s = (s1, Throw e).
Proof. unfold bind. by intros ->. Qed.

(** *** Relations that every step of a computation respects *)

Section Preservation.

Context (R : state → state → Prop) `{!Reflexive R, !Transitive R}.

Lemma preserves_ret {A} (a : A) : preserves R (ret a).
Proof. intros s s' r [= <- _]. reflexivity. Qed.

Lemma preserves_throw {A} e : preserves R (@throw A e).
Proof. intros s s' r [= <- _]. reflexivity. Qed.

Lemma preserves_gets {A} (f : state → A) : preserves R (gets f).
Proof. intros s s' r [= <- _]. reflexivity. Qed.

Lemma preserves_await_result {A} (r0 : result A) : preserves R (await_result r0).
Proof. intros s s' r [= <- _]. reflexivity. Qed.

Lemma preserves_bind {A B} (c : M A) (k : A → M B) :
  preserves R c → (∀ a, preserves R (k a)) → preserves R (bind c k).
Proof.
  intros Hc Hk s s' r H.
  apply bind_inv in H as [(s1 & a & H1 & H2)|(e & H1 & _)].
  - etrans; [by eapply Hc | by eapply Hk].
  - by eapply Hc.
Qed.

Lemma preserves_settle {A} (c : M A) : preserves R c → preserves R (settle c).
Proof.
  intros Hc s s' r. unfold settle. destruct (c s) as [s1 r1] eqn:E.
  intros [= <- _]. by eapply Hc.
Qed.

Lemma preserves_mapM {A B} (f : A → M B) (l : list A) :
  (∀ a, preserves R (f a)) → preserves R (mapM f l).
Proof.
  intros Hf. induction l as [|a l IH]; simpl.
  - apply preserves_ret.
  - apply preserves_bind; [apply Hf|intros b].
    apply preserves_bind; [apply IH|intros bs]. apply preserves_ret.
Qed.

Lemma preserves_method {A} root name (m : root_handle → M A) :
  (∀ h, preserves R (m h)) → preserves R (method root name m).
Proof. intros Hm. destruct root; simpl; [apply Hm | apply preserves_throw]. Qed.

Lemma preserves_modify (f : state → state) :
  (∀ s, R s (f s)) → preserves R (modify f).
Proof. intros Hf s s' r [= <- _]. apply Hf. Qed.

End Preservation.

#[local] Instance same_store_refl : Reflexive same_store.
Proof. by intros s. Qed.
#[local] Instance same_store_trans : Transitive same_store.
Proof. intros s1 s2 s3 [? ?] [? ?]. split; congruence. Qed.
#[local] Instance same_dom_refl : Reflexive same_dom.
Proof. by intros s. Qed.
#[local] Instance same_dom_trans : Transitive same_dom.
Proof. intros s1 s2 s3 (?&?&?) (?&?&?). repeat split; congruence. Qed.
#[local] Instance same_roots_refl : Reflexive same_roots.
Proof. by intros s. Qed.
#[local] Instance same_roots_trans : Transitive same_roots.
Proof. unfold same_roots. intros s1 s2 s3 ? ?. congruence. Qed.
#[local] Instance same_config_refl : Reflexive same_config.
Proof. by intros s. Qed.
#[local] Instance same_config_trans : Transitive same_config.
Proof. unfold same_config. intros s1 s2 s3 ? ?. congruence. Qed.
#[local] Instance same_parents_refl : Reflexive same_parents.
Proof. by intros s. Qed.
#[local] Instance same_parents_trans : Transitive same_parents.
Proof. unfold same_parents. intros s1 s2 s3 ? ?. congruence. Qed.
#[local] Instance only_runtime_refl : Reflexive only_runtime.
Proof. by intros s. Qed.
#[local] Instance only_runtime_trans : Transitive only_runtime.
Proof.
  intros s1 s2 s3 (?&?&?&?) (?&?&?&?).
  split; [|split; [|split]]; etrans; eauto.
Qed.

(** Splits a goal [preserves R c] along the structure of [c]. *)
Ltac frame_step :=
  first
    [ apply preserves_ret; apply _
    | apply preserves_throw; apply _
    | apply preserves_gets; apply _
    | apply preserves_await_result; apply _
    | apply preserves_bind; [apply _ .. | idtac | intros ?]
    | apply preserves_settle
    | apply preserves_mapM; [apply _ .. | intros ?]
    | apply preserves_method; [apply _ .. | intros ?]
    | match goal with
      | |- preserves _ (if ?b then _ else _) => destruct b
      | |- preserves _ (match ?x with _ => _ end) => destruct x
      end ].

Create HintDb frame.

Ltac frame := repeat (frame_step; cbv beta); eauto with frame.

(** *** What the building blocks leave alone *)

Section Frames.

Variable rt : runtime.

Lemma runtime_call_only_runtime c : preserves only_runtime (runtime_call rt c).
Proof. intros s s' r [= <- _]. by repeat split. Qed.

Lemma strictModeIfNeeded_only_runtime e :
  preserves only_runtime (strictModeIfNeeded e).
Proof. unfold strictModeIfNeeded, getConfig_reactStrictMode. frame. Qed.

(** The decoration of the source is the decoration of the specification. *)
Lemma decorated_eq ui w s :
  strictModeIfNeeded (wrapUiIfNeeded ui w) s
  = (s, Ok (decoration_spec (reactStrictMode s) w ui)).
Proof.
  unfold strictModeIfNeeded, getConfig_reactStrictMode, bind, gets, ret.
  by destruct (reactStrictMode s), w.
Qed.

Hint Resolve runtime_call_only_runtime strictModeIfNeeded_only_runtime : frame.

Lemma root_hydrate_only_runtime h e : preserves only_runtime (root_hydrate rt h e).
Proof. unfold root_hydrate, act. frame. Qed.

Lemma root_render_only_runtime h e : preserves only_runtime (root_render rt h e).
Proof. unfold root_render, act. frame. Qed.

Lemma root_unmount_only_runtime h : preserves only_runtime (root_unmount rt h).
Proof. unfold root_unmount, act. frame. Qed.

Hint Resolve root_hydrate_only_runtime root_render_only_runtime
  root_unmount_only_runtime : frame.

Lemma renderRoot_only_runtime ui o : preserves only_runtime (renderRoot rt ui o).
Proof. unfold renderRoot. frame. Qed.

Hint Resolve renderRoot_only_runtime : frame.

Lemma rerender_only_runtime b ui : preserves only_runtime (rerender rt b ui).
Proof. unfold rerender. frame. Qed.

Lemma unmount_only_runtime b : preserves only_runtime (unmount rt b).
Proof. unfold unmount. frame. Qed.

Lemma hook_rerender_only_runtime h p : preserves only_runtime (hook_rerender rt h p).
Proof. apply rerender_only_runtime. Qed.

Lemma hook_unmount_only_runtime h : preserves only_runtime (hook_unmount rt h).
Proof. apply unmount_only_runtime. Qed.

End Frames.

#[local] Hint Resolve runtime_call_only_runtime strictModeIfNeeded_only_runtime
  root_hydrate_only_runtime root_render_only_runtime root_unmount_only_runtime
  renderRoot_only_runtime : frame.

(** *** Which exceptions a computation can throw *)

Section Exceptions.

Context (P : exn → Prop).

Lemma throws_only_ret {A} (a : A) : throws_only P (ret a).
Proof. intros s s' e [=]. Qed.

Lemma throws_only_gets {A} (f : state → A) : throws_only P (gets f).
Proof. intros s s' e [=]. Qed.

Lemma throws_only_modify f : throws_only P (modify f).
Proof. intros s s' e [=]. Qed.

Lemma throws_only_throw {A} e : P e → throws_only P (@throw A e).
Proof. intros He s s' e' [= _ <-]. done. Qed.

Lemma throws_only_bind {A B} (c : M A) (k : A → M B) :
  throws_only P c → (∀ a, throws_only P (k a)) → throws_only P (bind c k).
Proof.
  intros Hc Hk s s' e H.
  apply bind_inv in H as [(s1 & a & H1 & H2)|(e' & H1 & [= ->])].
  - by eapply Hk.
  - by eapply Hc.
Qed.

Lemma throws_only_method {A} root name (m : root_handle → M A) :
  (∀ e, P (TypeError e)) →
  (∀ h, throws_only P (m h)) → throws_only P (method root name m).
Proof.
  intros Ht Hm. destruct root; simpl; [apply Hm | by apply throws_only_throw].
Qed.

Lemma throws_only_runtime_call rt c :
  (∀ c, P (Thrown c)) → throws_only P (runtime_call rt c).
Proof.
  intros Hp s s' e. unfold runtime_call.
  destruct (rt_throws rt (rtLog s) c); intros [= _ <-]. apply Hp.
Qed.

Lemma throws_only_new_root k c : throws_only P (new_root k c).
Proof. intros s s' e [=]. Qed.

Lemma throws_only_createElement tag : throws_only P (document_createElement tag).
Proof. intros s s' e [=]. Qed.

Lemma throws_only_appendChild p c : throws_only P (appendChild p c).
Proof. intros s s' e [=]. Qed.

End Exceptions.

Ltac exn_step :=
  first
    [ apply throws_only_ret | apply throws_only_gets | apply throws_only_modify
    | apply throws_only_new_root | apply throws_only_createElement
    | apply throws_only_appendChild
    | apply throws_only_runtime_call; intros ?
    | apply throws_only_throw
    | apply throws_only_bind; [|intros ?]
    | apply throws_only_method; [intros ?|intros ?]
    | match goal with
      | |- throws_only _ (if ?b then _ else _) => destruct b
      | |- throws_only _ (match ?x with _ => _ end) => destruct x
      end ].

Ltac exn := repeat (exn_step; cbv beta).

Section LegacyCheck.

Variable rt : runtime.

Lemma legacyRootMessage_distinct : nonHydrateableMessage ≠ legacyRootMessage.
Proof. discriminate. Qed.

(** Past the capability check nothing in [render] throws the
    configuration error. *)
Lemma render_checked_other_errors ui o :
  legacy_check_fails rt o = false →
  throws_only (λ e, e ≠ legacy_root_unsupported) (render rt ui o).
Proof.
  unfold legacy_check_fails, legacy_root_unsupported. intros Hc.
  unfold render. rewrite Hc.
  unfold renderRoot, createLegacyRoot, createConcurrentRoot, strictModeIfNeeded,
    getConfig_reactStrictMode, root_hydrate, root_render, act.
  exn; try discriminate.
Qed.

Lemma render_unchecked ui o s :
  legacy_check_fails rt o = true →
  render rt ui o s = (s, Throw legacy_root_unsupported).
Proof. unfold legacy_check_fails, render. by intros ->. Qed.

Lemma renderHook_unchecked cb o s :
  legacy_check_fails rt (renderOptions o) = true →
  renderHook rt cb o s = (s, Throw legacy_root_unsupported).
Proof. unfold legacy_check_fails, renderHook. by intros ->. Qed.

Lemma renderHook_checked_other_errors cb o :
  legacy_check_fails rt (renderOptions o) = false →
  throws_only (λ e, e ≠ legacy_root_unsupported) (renderHook rt cb o).
Proof.
  intros Hc. unfold renderHook.
  unfold legacy_check_fails in Hc. rewrite Hc.
  apply throws_only_bind; [|intros ?; apply throws_only_ret].
  apply render_checked_other_errors. exact Hc.
Qed.

End LegacyCheck.

(** C4: a [render] with [legacyRoot: true] against a runtime without the
    single-shot mount API throws the legacy-root-unsupported error, whose
    message is the remediation text, and the state it throws from is the
    state it was called in: no element was created or appended, nothing
    was recorded and the runtime was not called. *)
Theorem render_legacyRoot_unsupported (rt : runtime) (ui : element)
    (o : render_options) (s : state) :
  opt_legacyRoot o = true →
  single_shot_api rt = false →
  render rt ui o s = (s, Throw (JsError legacyRootMessage)).
Proof.
  intros Hl Ha. apply render_unchecked.
  unfold legacy_check_fails. by rewrite Hl, Ha.
Qed.

Lemma render_legacyRoot_unsupported_witness :
  render (quiet_runtime false) (Markup "<span>hi</span>") with_legacyRoot
         empty_document
  = (empty_document, Throw (JsError legacyRootMessage)).
Proof. apply render_legacyRoot_unsupported; reflexivity. Defined.

(** C9: [renderHook] performs the capability check of [render]: on the
    same options and in the same state, one throws the
    legacy-root-unsupported error if and only if the other does, that is
    exactly when [legacyRoot] is set and the runtime has no single-shot
    mount API; the error thrown is the same value, message included, and
    both throw it from the unchanged state. *)
Theorem renderHook_same_legacy_check (rt : runtime) (renderCallback : nat)
    (ui : element) (o : hook_options) (s : state) :
  (snd (renderHook rt renderCallback o s) = Throw legacy_root_unsupported ↔
   snd (render rt ui (renderOptions o) s) = Throw legacy_root_unsupported) ∧
  (snd (renderHook rt renderCallback o s) = Throw legacy_root_unsupported ↔
   opt_legacyRoot (renderOptions o) = true ∧ single_shot_api rt = false) ∧
  (snd (renderHook rt renderCallback o s) = Throw legacy_root_unsupported →
   renderHook rt renderCallback o s = (s, Throw (JsError legacyRootMessage)) ∧
   render rt ui (renderOptions o) s = (s, Throw (JsError legacyRootMessage))).
Proof.
  destruct (legacy_check_fails rt (renderOptions o)) eqn:Hc.
  - rewrite (renderHook_unchecked rt _ _ _ Hc), (render_unchecked rt _ _ _ Hc).
    simpl. split_and!; try done.
    split; [intros _|done].
    unfold legacy_check_fails in Hc.
    apply andb_true_iff in Hc as [? ?%negb_true_iff]. done.
  - assert (Hh : snd (renderHook rt renderCallback o s) ≠ Throw legacy_root_unsupported).
    { destruct (renderHook rt renderCallback o s) as [s' [h|e]] eqn:E; simpl; [done|].
      intros [= ->]. by eapply (renderHook_checked_other_errors rt _ _ Hc). }
    assert (Hr : snd (render rt ui (renderOptions o) s) ≠ Throw legacy_root_unsupported).
    { destruct (render rt ui (renderOptions o) s) as [s' [h|e]] eqn:E; simpl; [done|].
      intros [= ->]. by eapply (render_checked_other_errors rt _ _ Hc). }
    split_and!; try done.
    split; [done|]. intros [Hl Ha]. unfold legacy_check_fails in Hc.
    rewrite Hl, Ha in Hc. discriminate.
Qed.

Lemma renderHook_same_legacy_check_witness :
  renderHook (quiet_runtime false) 0
    {| initialProps := Undefined; renderOptions := with_legacyRoot |}
    empty_document
  = (empty_document, Throw (JsError legacyRootMessage)) ∧
  render (quiet_runtime false) (Markup "<span>hi</span>") with_legacyRoot
    empty_document
  = (empty_document, Throw (JsError legacyRootMessage)).
Proof.
  apply (renderHook_same_legacy_check (quiet_runtime false) 0
           (Markup "<span>hi</span>")
           {| initialProps := Undefined; renderOptions := with_legacyRoot |}
           empty_document).
  reflexivity.
Defined.

(** *** The UI description that reaches the runtime *)

Lemma preserves_weaken (R1 R2 : state → state → Prop) {A} (c : M A) :
  (∀ s s', R1 s s' → R2 s s') → preserves R1 c → preserves R2 c.
Proof. intros HR Hc s s' r H. apply HR. by eapply Hc. Qed.

Lemma same_trace_carries strict w ui s s' :
  same_trace s s' → carries strict w ui s s'.
Proof.
  intros [Hl Hc] Hs. split; [congruence|].
  exists []. rewrite app_nil_r. split; [done|]. intros c e Hin. inversion Hin.
Qed.

#[local] Instance carries_refl strict w ui : Reflexive (carries strict w ui).
Proof. intros s. by apply same_trace_carries. Qed.

#[local] Instance carries_trans strict w ui : Transitive (carries strict w ui).
Proof.
  intros s1 s2 s3 H12 H23 Hs.
  destruct (H12 Hs) as (Hs2 & new1 & Hl1 & Hn1).
  destruct (H23 Hs2) as (Hs3 & new2 & Hl2 & Hn2).
  split; [done|]. exists (new1 ++ new2). split.
  - by rewrite Hl2, Hl1, app_assoc.
  - intros c e [Hin|Hin]%elem_of_app; eauto.
Qed.

Section Carries.

Variable rt : runtime.
Variables (strict : bool) (w : option component) (ui : element).

Lemma runtime_call_carries c :
  (∀ e, call_element c = Some e → e = decoration_spec strict w ui) →
  preserves (carries strict w ui) (runtime_call rt c).
Proof.
  intros Hc s s' r [= <- _] Hs. split; [done|].
  exists [c]. split; [done|].
  intros c' e ->%list_elem_of_singleton. apply Hc.
Qed.

(** The decorated element is computed from the configuration in force. *)
Lemma decorated_bind_carries {A} (k : element → M A) :
  preserves (carries strict w ui) (k (decoration_spec strict w ui)) →
  preserves (carries strict w ui)
    (bind (strictModeIfNeeded (wrapUiIfNeeded ui w)) k).
Proof.
  intros Hk s s' r H Hs. unfold bind at 1 in H. rewrite decorated_eq in H.
  rewrite Hs in H. by eapply Hk.
Qed.

Lemma root_hydrate_carries h :
  preserves (carries strict w ui)
    (root_hydrate rt h (decoration_spec strict w ui)).
Proof.
  unfold root_hydrate, act. frame.
  apply runtime_call_carries. by intros e [= <-].
Qed.

Lemma root_render_carries h :
  preserves (carries strict w ui)
    (root_render rt h (decoration_spec strict w ui)).
Proof.
  unfold root_render, act. frame;
    apply runtime_call_carries; by intros e [= <-].
Qed.

Lemma renderRoot_carries o :
  ro_wrapper o = w → preserves (carries strict w ui) (renderRoot rt ui o).
Proof.
  intros Hw. unfold renderRoot. rewrite Hw.
  apply preserves_bind; [apply _..| |intros ?; apply preserves_ret; apply _].
  destruct (ro_hydrate o); apply decorated_bind_carries;
    (apply preserves_method; [apply _|intros h]).
  - apply root_hydrate_carries.
  - apply root_render_carries.
Qed.

Lemma rerender_carries b :
  rr_wrapper b = w → preserves (carries strict w ui) (rerender rt b ui).
Proof.
  intros Hw. unfold rerender.
  apply preserves_bind; [apply _..| |intros ?; apply preserves_ret; apply _].
  by apply renderRoot_carries.
Qed.

Lemma same_trace_step {A} (c : M A) :
  preserves same_trace c → preserves (carries strict w ui) c.
Proof. apply preserves_weaken, same_trace_carries. Qed.

Lemma createConcurrentRoot_carries container hydrate :
  preserves (carries strict w ui)
    (createConcurrentRoot rt container hydrate ui w).
Proof.
  unfold createConcurrentRoot, act.
  apply preserves_bind; [apply _..| |intros ?].
  - destruct hydrate.
    + apply decorated_bind_carries, runtime_call_carries. by intros e [= <-].
    + apply runtime_call_carries. by intros e [=].
  - apply same_trace_step. by intros s s' r [= <- _].
Qed.

Lemma render_carries o :
  opt_wrapper o = w → preserves (carries strict w ui) (render rt ui o).
Proof.
  intros Hw. unfold render. cbv zeta. rewrite Hw.
  destruct (opt_legacyRoot o && negb (single_shot_api rt));
    [apply preserves_throw; apply _|].
  apply preserves_bind; [apply _..| |intros baseElement].
  { frame. }
  apply preserves_bind; [apply _..| |intros container].
  { destruct (opt_container o); frame;
      apply same_trace_step; by intros s s' r [= <- _]. }
  apply preserves_bind; [apply _..| |intros tracked]; [frame|].
  apply preserves_bind; [apply _..| |intros root].
  - destruct tracked; simpl; [frame|].
    apply preserves_bind; [apply _..| |intros h].
    + destruct (opt_legacyRoot o).
      * apply same_trace_step. by intros s s' r [= <- _].
      * apply createConcurrentRoot_carries.
    + frame; apply same_trace_step; by intros s s' r [= <- _].
  - by apply renderRoot_carries.
Qed.

End Carries.

Lemma root_render_eq rt h e s :
  root_render rt h e s = runtime_call rt (mount_call h e) s.
Proof. unfold root_render, mount_call, act. by destruct (root_flavour h). Qed.

Lemma rerender_eq rt b ui s root :
  rr_root b = Some root →
  rerender rt b ui s
  = root_render rt root (decoration_spec (reactStrictMode s) (rr_wrapper b) ui) s.
Proof.
  intros Hr. unfold rerender, renderRoot. simpl. rewrite Hr. simpl.
  unfold bind at 1 2 3. rewrite decorated_eq.
  destruct (root_render _ _ _ _) as [s1 [[]|e]]; reflexivity.
Qed.

(** C7: the UI description that [renderRoot] hands to the root-handle, on
    the render path and on the hydrate path alike, is the caller's UI
    wrapped first in the wrapper component, when one is given, and then in
    the strict-mode marker, when strict mode is configured, so that the
    marker is outermost; with neither it is the UI itself.  The same holds
    for every runtime call that [render] (root creation included) and
    [rerender] make. *)
Theorem mounted_ui_is_decorated (rt : runtime) (ui : element) (s s' : state) :
  (∀ wrapper,
     strictModeIfNeeded (wrapUiIfNeeded ui wrapper) s
     = (s, Ok (decoration_spec (reactStrictMode s) wrapper ui))) ∧
  (∀ o r, renderRoot rt ui o s = (s', r) →
     let e := decoration_spec (reactStrictMode s) (ro_wrapper o) ui in
     mounts_only e s s' ∧
     ∀ root, ro_root o = Some root →
       (ro_hydrate o = false → rtLog s' = rtLog s ++ [mount_call root e]) ∧
       (ro_hydrate o = true → root_flavour root = LegacyRoot →
        rtLog s' = rtLog s ++ [LegacyHydrate e (root_container root)])) ∧
  (∀ o r, render rt ui o s = (s', r) →
     mounts_only (decoration_spec (reactStrictMode s) (opt_wrapper o) ui) s s') ∧
  (∀ b r, rerender rt b ui s = (s', r) →
     mounts_only (decoration_spec (reactStrictMode s) (rr_wrapper b) ui) s s').
Proof.
  split_and!.
  - intros. apply decorated_eq.
  - intros o r H e. split.
    + by eapply (renderRoot_carries rt (reactStrictMode s) (ro_wrapper o) ui o).
    + intros root Hroot. unfold renderRoot in H. rewrite Hroot in H.
      split.
      * intros Hh. rewrite Hh in H. simpl in H.
        unfold bind at 1 2 in H. rewrite decorated_eq in H.
        rewrite root_render_eq in H. unfold runtime_call in H. fold e in H.
        destruct (rt_throws rt (rtLog s) (mount_call root e));
          simpl in H; by inversion H.
      * intros Hh Hf. rewrite Hh in H. simpl in H.
        unfold bind at 1 2 in H. rewrite decorated_eq in H.
        unfold root_hydrate, act, runtime_call in H. rewrite Hf in H. fold e in H.
        destruct (rt_throws rt (rtLog s) _); simpl in H; by inversion H.
  - intros o r H.
    by eapply (render_carries rt (reactStrictMode s) (opt_wrapper o) ui o).
  - intros b r H.
    by eapply (rerender_carries rt (reactStrictMode s) (rr_wrapper b) ui b).
Qed.

Lemma mounted_ui_is_decorated_witness :
  rtLog (fst (renderRoot (quiet_runtime false) (Markup "<span>hi</span>")
                wrapped_options strict_document))
  = [RootRender 0
       (React_createElement StrictMode NullProps
          (React_createElement (UserComponent "Provider") NullProps
             (Markup "<span>hi</span>")))].
Proof.
  destruct (mounted_ui_is_decorated (quiet_runtime false)
              (Markup "<span>hi</span>") strict_document
              (fst (renderRoot (quiet_runtime false) (Markup "<span>hi</span>")
                      wrapped_options strict_document)))
    as (_ & H & _).
  destruct (H wrapped_options
              (snd (renderRoot (quiet_runtime false) (Markup "<span>hi</span>")
                      wrapped_options strict_document))
              eq_refl) as [_ H2].
  destruct (H2 plain_root eq_refl) as [H3 _].
  exact (H3 eq_refl).
Defined.

(** C6: [rerender] runs the [render] method of the root-handle captured
    in the render result, with the new UI description decorated as on the
    first mount.  It leaves the document as it is (no container is
    created), builds no root-handle, does not touch the store, and
    resolves to nothing: its value is the unit value. *)
Theorem rerender_reuses_container_and_root (rt : runtime) (b : render_result)
    (ui : element) (s s' : state) (r : result unit) :
  rerender rt b ui s = (s', r) →
  same_dom s s' ∧ same_roots s s' ∧ same_store s s' ∧
  (∀ v, r = Ok v → v = tt) ∧
  ∀ root, rr_root b = Some root →
    let e := decoration_spec (reactStrictMode s) (rr_wrapper b) ui in
    root_render rt root e s = (s', r) ∧
    rtLog s' = rtLog s ++ [mount_call root e].
Proof.
  intros H.
  destruct (rerender_only_runtime rt b ui s s' r H) as (Hst & Hd & Hr & _).
  split_and!; try done.
  - by intros [].
  - intros root Hroot e. rewrite (rerender_eq rt b ui s root Hroot) in H.
    split; [done|]. rewrite root_render_eq in H.
    unfold runtime_call in H. fold e in H. by inversion H.
Qed.

Lemma rerender_reuses_container_and_root_witness :
  let s' := fst (rerender (quiet_runtime false) first_bundle
                   (Markup "<span>bye</span>") after_first_render) in
  same_dom after_first_render s' ∧
  allocatedRoots s' = [plain_root] ∧
  rtLog s' = [CreateRoot 2; RootRender 0 (Markup "<span>hi</span>");
              RootRender 0 (Markup "<span>bye</span>")].
Proof.
  destruct (rerender_reuses_container_and_root (quiet_runtime false) first_bundle
              (Markup "<span>bye</span>") after_first_render
              (fst (rerender (quiet_runtime false) first_bundle
                      (Markup "<span>bye</span>") after_first_render))
              (snd (rerender (quiet_runtime false) first_bundle
                      (Markup "<span>bye</span>") after_first_render))
              eq_refl) as (Hd & Hr & _ & _ & Hroot).
  destruct (Hroot plain_root eq_refl) as [_ Hlog].
  split; [exact Hd|]. split; [exact Hr | exact Hlog].
Defined.

(** *** [render], step by step *)

Lemma render_unfold rt ui o :
  render rt ui o =
    if legacy_check_fails rt o
    then throw legacy_root_unsupported
    else
      let* container :=
        resolve_container (resolved_baseElement o) (opt_container o) in
      let* root :=
        obtain_root rt container (opt_legacyRoot o) (opt_hydrate o) ui
          (opt_wrapper o) in
      renderRoot rt ui
        {| ro_container := container;
           ro_baseElement := resolved_baseElement o;
           ro_queries := opt_queries o;
           ro_hydrate := opt_hydrate o;
           ro_wrapper := opt_wrapper o;
           ro_root := root |}.
Proof.
  unfold render, legacy_check_fails, resolved_baseElement, resolve_container,
    obtain_root.
  destruct (opt_legacyRoot o && negb (single_shot_api rt)); [done|].
  destruct (opt_baseElement o), (opt_container o); reflexivity.
Qed.

Lemma resolve_container_given base c s :
  resolve_container base (Val c) s = (s, Ok c).
Proof. reflexivity. Qed.

Lemma resolve_container_default base container s :
  truthy container = false →
  resolve_container base container s
  = (set_dom (<[nextNode s := base]> (parentNode s))
             (<[nextNode s := "div"]> (tagName s)) (S (nextNode s)) s,
     Ok (nextNode s)).
Proof. by destruct container. Qed.

Section RenderSteps.

Variable rt : runtime.

Lemma renderRoot_Ok ui o s s' b :
  renderRoot rt ui o s = (s', Ok b) →
  b = {| rr_container := ro_container o;
         rr_baseElement := ro_baseElement o;
         rr_root := ro_root o;
         rr_wrapper := ro_wrapper o;
         rr_queries := ro_queries o |}.
Proof.
  unfold renderRoot. intros H.
  apply bind_Ok_inv in H as (s1 & [] & _ & H). by inversion H.
Qed.

Lemma new_root_same_dom k c : preserves same_dom (new_root k c).
Proof. by intros s s' r [= <- _]. Qed.

Lemma runtime_call_same_dom c : preserves same_dom (runtime_call rt c).
Proof. by intros s s' r [= <- _]. Qed.

Lemma renderRoot_same_dom ui o : preserves same_dom (renderRoot rt ui o).
Proof.
  eapply preserves_weaken; [|apply renderRoot_only_runtime].
  by intros s s' (_ & ? & _).
Qed.

Lemma obtain_root_same_dom container legacyRoot hydrate ui wrapper :
  preserves same_dom (obtain_root rt container legacyRoot hydrate ui wrapper).
Proof.
  unfold obtain_root, createLegacyRoot, createConcurrentRoot, strictModeIfNeeded,
    getConfig_reactStrictMode, act.
  frame; try apply new_root_same_dom; try apply runtime_call_same_dom;
    by intros s s' r [= <- _].
Qed.

(** A [render] that returns went through the three steps. *)
Lemma render_Ok_inv ui o s s' b :
  render rt ui o s = (s', Ok b) →
  legacy_check_fails rt o = false ∧
  ∃ s1 s2 container root,
    resolve_container (resolved_baseElement o) (opt_container o) s
    = (s1, Ok container) ∧
    obtain_root rt container (opt_legacyRoot o) (opt_hydrate o) ui
      (opt_wrapper o) s1 = (s2, Ok root) ∧
    renderRoot rt ui
      {| ro_container := container;
         ro_baseElement := resolved_baseElement o;
         ro_queries := opt_queries o;
         ro_hydrate := opt_hydrate o;
         ro_wrapper := opt_wrapper o;
         ro_root := root |} s2 = (s', Ok b) ∧
    b = {| rr_container := container;
           rr_baseElement := resolved_baseElement o;
           rr_root := root;
           rr_wrapper := opt_wrapper o;
           rr_queries := opt_queries o |}.
Proof.
  rewrite render_unfold. destruct (legacy_check_fails rt o); [done|].
  intros H. split; [done|].
  apply bind_Ok_inv in H as (s1 & container & H1 & H).
  apply bind_Ok_inv in H as (s2 & root & H2 & H).
  exists s1, s2, container, root. split_and!; try done.
  by apply renderRoot_Ok in H.
Qed.

End RenderSteps.

(** What a [render] that passed the capability check did to the document,
    whether it returned or threw later on. *)
Lemma render_dom (rt : runtime) (ui : element) (o : render_options)
    (s s' : state) (r : result render_result) :
  legacy_check_fails rt o = false →
  render rt ui o s = (s', r) →
  ∃ s1 container,
    resolve_container (resolved_baseElement o) (opt_container o) s
    = (s1, Ok container) ∧
    same_dom s1 s' ∧
    ∀ b, r = Ok b →
         rr_container b = container ∧
         rr_baseElement b = resolved_baseElement o.
Proof.
  intros Hc. rewrite render_unfold, Hc. intros H.
  apply bind_inv in H as [(s1 & container & H1 & H)|(e & H1 & _)].
  - exists s1, container. split; [done|]. split.
    + revert H. apply preserves_bind; [apply _..| |intros root].
      * apply obtain_root_same_dom.
      * apply renderRoot_same_dom.
    + intros b ->. apply bind_Ok_inv in H as (s2 & root & _ & H).
      by apply renderRoot_Ok in H as ->.
  - destruct (opt_container o); discriminate H1.
Qed.

(** C5, as the code has it: an omitted [baseElement] defaults to the
    container when one is supplied and to [document.body] otherwise (also
    when it is [null]); an omitted container is the element that
    [document.createElement('div')] allocates during the call, and it is
    a child of the resolved base element when the call ends.  This holds
    for every call that passes the capability check, whether it returns
    or throws later on. *)
Theorem render_defaults (rt : runtime) (ui : element) (o : render_options)
    (s s' : state) (r : result render_result) :
  legacy_check_fails rt o = false →
  render rt ui o s = (s', r) →
  (opt_baseElement o = Undefined →
   resolved_baseElement o = match opt_container o with
                            | Val c => c
                            | _ => document_body
                            end) ∧
  (truthy (opt_container o) = false →
   nextNode s' = S (nextNode s) ∧
   tagName s' !! nextNode s = Some "div" ∧
   parentNode s' !! nextNode s = Some (resolved_baseElement o)) ∧
  (∀ c, opt_container o = Val c → same_dom s s') ∧
  (∀ b, r = Ok b →
     rr_baseElement b = resolved_baseElement o ∧
     rr_container b = match opt_container o with
                      | Val c => c
                      | _ => nextNode s
                      end).
Proof.
  intros Hc H.
  destruct (render_dom _ _ _ _ _ _ Hc H)
    as (s1 & container & H1 & (Hp & Ht & Hn) & Hb).
  split_and!.
  - unfold resolved_baseElement. by intros ->.
  - intros Ho. rewrite (resolve_container_default _ _ _ Ho) in H1.
    injection H1 as <- <-. rewrite Hn, Ht, Hp. simpl.
    by rewrite !lookup_insert_eq.
  - intros c Ho. rewrite Ho, resolve_container_given in H1.
    injection H1 as <- <-. done.
  - intros b Hr. destruct (Hb b Hr) as [-> ->]. split; [done|].
    destruct (opt_container o) eqn:Ho.
    + rewrite (resolve_container_default _ Undefined) in H1 by done.
      by injection H1 as <- <-.
    + rewrite (resolve_container_default _ Null) in H1 by done.
      by injection H1 as <- <-.
    + rewrite resolve_container_given in H1. by injection H1 as <- <-.
Qed.

Lemma render_defaults_witness :
  let out := render (quiet_runtime false) (Markup "<span>hi</span>") no_options
               empty_document in
  out = (after_first_render, Ok first_bundle) ∧
  rr_baseElement first_bundle = document_body ∧
  rr_container first_bundle = 2 ∧
  tagName after_first_render !! 2 = Some "div" ∧
  parentNode after_first_render !! 2 = Some document_body.
Proof.
  assert (E : render (quiet_runtime false) (Markup "<span>hi</span>") no_options
                empty_document = (after_first_render, Ok first_bundle))
    by reflexivity.
  destruct (render_defaults (quiet_runtime false) _ no_options _ _ _ eq_refl E)
    as (Hbase & Hdiv & _ & Hb).
  destruct (Hdiv eq_refl) as (_ & Ht & Hp).
  destruct (Hb first_bundle eq_refl) as [Hbe Hco].
  split; [exact E|]. split; [exact Hbe|].
  split; [exact Hco|]. split; [exact Ht | exact Hp].
Defined.

(** C5 as the specification states it fails: with a container supplied
    and no base element, the base element of the result is the container,
    not the body. *)
Lemma baseElement_defaults_to_container : ¬ baseElement_defaults_to_body.
Proof.
  intros H.
  destruct (H (quiet_runtime false) (Markup "<span>hi</span>") (with_container 2)
              document_with_divs
              (fst (render (quiet_runtime false) (Markup "<span>hi</span>")
                      (with_container 2) document_with_divs))
              {| rr_container := 2; rr_baseElement := 2;
                 rr_root := Some plain_root; rr_wrapper := None;
                 rr_queries := None |}
              eq_refl) as [Hb _].
  specialize (Hb eq_refl). discriminate Hb.
Qed.

(** *** [cleanup] *)

#[local] Instance same_registry_refl : Reflexive same_registry.
Proof. by intros s. Qed.
#[local] Instance same_registry_trans : Transitive same_registry.
Proof. intros s1 s2 s3 [? ?] [? ?]. split; etrans; eauto. Qed.

Lemma only_runtime_same_registry s s' : only_runtime s s' → same_registry s s'.
Proof. by intros (? & _ & ? & _). Qed.

Lemma Promise_all_Throw {A} (settled : list (result A)) e :
  Promise_all settled = Throw e → Throw e ∈ settled.
Proof.
  induction settled as [|[a|e'] rest IH]; simpl; [done| |].
  - destruct (Promise_all rest); [done|]. intros [= ->].
    apply list_elem_of_further. by apply IH.
  - intros [= ->]. apply list_elem_of_here.
Qed.

Lemma Promise_all_Ok {A} (settled : list (result A)) l :
  Promise_all settled = Ok l → settled = Ok <$> l.
Proof.
  revert l. induction settled as [|[a|e'] rest IH]; simpl; intros l.
  - by intros [= <-].
  - destruct (Promise_all rest) as [l'|]; [|done]. intros [= <-].
    simpl. f_equal. by apply IH.
  - done.
Qed.

Lemma Promise_all_rejects {A} (settled : list (result A)) e :
  Throw e ∈ settled → ∃ e', Promise_all settled = Throw e'.
Proof.
  intros Hin. destruct (Promise_all settled) as [l|e'] eqn:E; [|eauto].
  apply Promise_all_Ok in E. subst.
  apply list_elem_of_fmap in Hin as (a & [=] & _).
Qed.

Section Cleanup.

Variable rt : runtime.

Lemma removeChild_same_registry p c : preserves same_registry (removeChild p c).
Proof.
  intros s s' r. unfold removeChild.
  destruct (decide _); by intros [= <- _].
Qed.

Lemma root_unmount_same_registry h : preserves same_registry (root_unmount rt h).
Proof.
  eapply preserves_weaken; [apply only_runtime_same_registry|].
  apply root_unmount_only_runtime.
Qed.

Hint Resolve removeChild_same_registry root_unmount_same_registry : frame.

Lemma cleanup_entry_same_registry e : preserves same_registry (cleanup_entry rt e).
Proof. unfold cleanup_entry, act. frame. Qed.

Hint Resolve cleanup_entry_same_registry : frame.

Lemma start_all_same_registry l : preserves same_registry (start_all rt l).
Proof. unfold start_all. frame. Qed.

(** The batch always runs to its end: a failing callback is a rejected
    promise, not an exception of [map]. *)
Lemma start_all_total l s :
  ∃ s1 settled, start_all rt l s = (s1, Ok settled) ∧
                length settled = length l.
Proof.
  revert s. induction l as [|e l IH]; intros s.
  - by exists s, [].
  - unfold start_all. simpl. unfold bind at 1, settle at 1.
    destruct (cleanup_entry rt e s) as [s1 r1].
    destruct (IH s1) as (s2 & settled & E & Hlen).
    unfold start_all in E. unfold bind at 1. rewrite E.
    exists s2, (r1 :: settled). simpl. by rewrite Hlen.
Qed.

Lemma start_all_cons e l s :
  start_all rt (e :: l) s =
    let '(s1, r1) := cleanup_entry rt e s in
    match start_all rt l s1 with
    | (s2, Ok settled) => (s2, Ok (r1 :: settled))
    | (s2, Throw x) => (s2, Throw x)
    end.
Proof.
  unfold start_all. simpl. unfold bind at 1, settle at 1.
  destruct (cleanup_entry rt e s) as [s1 r1]. unfold bind at 1.
  by destruct (mapM _ l s1) as [s2 [settled|x]].
Qed.

Lemma cleanup_unfold s :
  cleanup rt s =
    match start_all rt (mountedRootEntries s) s with
    | (s1, Ok settled) =>
        match Promise_all settled with
        | Ok _ => (set_mountedContainers ∅ (set_mountedRootEntries [] s1), Ok tt)
        | Throw e => (s1, Throw e)
        end
    | (s1, Throw e) => (s1, Throw e)
    end.
Proof.
  unfold cleanup, start_all. unfold bind at 1. simpl. unfold bind at 1.
  destruct (mapM _ _ s) as [s1 [settled|e]]; [|done].
  unfold bind at 1, await_result. by destruct (Promise_all settled).
Qed.

(** The callback of an entry fails exactly when the unmount of its
    root-handle does: the detach that follows cannot throw. *)
Lemma cleanup_entry_Throw e s s' x :
  cleanup_entry rt e s = (s', Throw x) ↔
  root_unmount rt (entry_root e) s = (s', Throw x).
Proof.
  unfold cleanup_entry, act. unfold bind at 1.
  destruct (root_unmount rt (entry_root e) s) as [s1 [[]|y]]; [|done].
  unfold bind at 1. simpl.
  destruct (decide (parentNode s1 !! entry_container e = Some document_body))
    as [Hp|Hp]; [|done].
  unfold bind, removeChild. by rewrite decide_True.
Qed.

Lemma cleanup_entry_parents e s s' r :
  cleanup_entry rt e s = (s', r) →
  parentNode s' = match r with
                  | Ok _ => detach (parentNode s) (entry_container e)
                  | Throw _ => parentNode s
                  end.
Proof.
  unfold cleanup_entry, act. unfold bind at 1.
  destruct (root_unmount rt (entry_root e) s) as [s1 [[]|y]] eqn:E.
  - apply root_unmount_only_runtime in E as (_ & (Hp & _) & _).
    unfold bind at 1. simpl. unfold detach. rewrite Hp.
    destruct (decide (parentNode s !! entry_container e = Some document_body))
      as [Hb|Hb].
    + unfold bind, removeChild.
      destruct (decide (parentNode s1 !! entry_container e = Some document_body))
        as [_|Hn]; [|by rewrite Hp in Hn].
      intros [= <- <-]. simpl. by rewrite Hp.
    + by intros [= <- <-].
  - apply root_unmount_only_runtime in E as (_ & (Hp & _) & _).
    by intros [= <- <-].
Qed.

Lemma start_all_parents l s s1 vs :
  start_all rt l s = (s1, Ok (Ok <$> vs)) →
  parentNode s1 = foldl detach (parentNode s) (entry_container <$> l).
Proof.
  revert s vs. induction l as [|e l IH]; intros s vs.
  - by intros [= <- _].
  - rewrite start_all_cons.
    destruct (cleanup_entry rt e s) as [s2 r1] eqn:E1.
    destruct (start_all rt l s2) as [s3 [settled|x]] eqn:E2; [|done].
    intros [= <- Hs]. destruct vs as [|v vs]; [done|].
    simpl in Hs. injection Hs as -> ->.
    apply cleanup_entry_parents in E1. apply IH in E2.
    simpl. by rewrite E2, E1.
Qed.

End Cleanup.

Lemma detach_lookup pn a c :
  detach pn a !! c =
    if decide (a = c ∧ pn !! c = Some document_body) then None else pn !! c.
Proof.
  unfold detach. destruct (decide (a = c)) as [->|Hne].
  - destruct (decide (pn !! c = Some document_body)) as [Hb|Hb].
    + rewrite decide_True by done. apply lookup_delete_eq.
    + rewrite decide_False; [done|]. by intros [_ ?].
  - rewrite (decide_False (P := a = c ∧ _)) by (by intros [? _]).
    destruct (decide _); [by rewrite lookup_delete_ne|done].
Qed.


Lemma foldl_detach_untracked cs pn c :
  c ∉ cs → foldl detach pn cs !! c = pn !! c.
Proof.
  revert pn. induction cs as [|a cs IH]; intros pn Hc; [done|].
  apply not_elem_of_cons in Hc as [Hne Hc]. simpl.
  rewrite IH by done. rewrite detach_lookup.
  rewrite decide_False; [done|]. intros [-> _]. done.
Qed.


(** C10: when the callback of some tracked entry fails in [cleanup], and
    it does exactly when the unmount of its root-handle throws, [cleanup]
    throws one of the errors of the batch, every callback of the batch
    having been started, and the store is as it was: the entry list and the
    container set are neither cleared nor shortened.  Whenever [cleanup]
    throws, the store is unchanged. *)
Theorem cleanup_failure_keeps_store (rt : runtime) (s : state) :
  (∀ s' e, cleanup rt s = (s', Throw e) →
     mountedRootEntries s' = mountedRootEntries s ∧
     mountedContainers s' = mountedContainers s) ∧
  (∀ s1 settled e,
     start_all rt (mountedRootEntries s) s = (s1, Ok settled) →
     Throw e ∈ settled →
     ∃ e', Throw e' ∈ settled ∧ cleanup rt s = (s1, Throw e') ∧
           mountedRootEntries s1 = mountedRootEntries s ∧
           mountedContainers s1 = mountedContainers s) ∧
  (∀ entry s0 s1 e,
     cleanup_entry rt entry s0 = (s1, Throw e) ↔
     root_unmount rt (entry_root entry) s0 = (s1, Throw e)).
Proof.
  split_and!.
  - intros s' e. rewrite cleanup_unfold.
    destruct (start_all rt (mountedRootEntries s) s) as [s1 [settled|x]] eqn:E.
    + apply start_all_same_registry in E as [[Hc He] _].
      destruct (Promise_all settled); [done|]. by intros [= <- _].
    + destruct (start_all_total rt (mountedRootEntries s) s) as (? & ? & E' & _).
      congruence.
  - intros s1 settled e E Hin.
    destruct (Promise_all_rejects _ _ Hin) as [e' He'].
    exists e'. rewrite cleanup_unfold, E, He'.
    apply start_all_same_registry in E as [[Hc He] _].
    split_and!; try done. by apply Promise_all_Throw.
  - intros. apply cleanup_entry_Throw.
Qed.

Lemma cleanup_failure_keeps_store_witness :
  let out := cleanup (unmount_fails 0) after_two_renders in
  snd out = Throw (Thrown (RootUnmount 0)) ∧
  length (mountedRootEntries after_two_renders) = 2 ∧
  mountedRootEntries (fst out) = mountedRootEntries after_two_renders ∧
  mountedContainers (fst out) = mountedContainers after_two_renders.
Proof.
  destruct (cleanup_failure_keeps_store (unmount_fails 0) after_two_renders)
    as (H & _ & _).
  destruct (H (fst (cleanup (unmount_fails 0) after_two_renders))
              (Thrown (RootUnmount 0)) eq_refl) as [He Hc].
  split; [reflexivity|]. split; [reflexivity|]. split; [exact He | exact Hc].
Defined.

(** *** The store under [render] *)

Lemma find_root_snoc c l e :
  find_root c (l ++ [e]) =
    if decide (entry_container e = c) then Some (entry_root e) else find_root c l.
Proof. unfold find_root. by rewrite foldl_app. Qed.

Lemma find_root_Some c l h :
  find_root c l = Some h →
  {| entry_container := c; entry_root := h |} ∈ l.
Proof.
  induction l as [|e l IH] using rev_ind; [done|].
  rewrite find_root_snoc. destruct (decide (entry_container e = c)) as [<-|Hne].
  - intros [= <-]. apply elem_of_app. right. destruct e. apply list_elem_of_here.
  - intros H. apply elem_of_app. left. by apply IH.
Qed.

Lemma find_root_elem l e :
  NoDup (entry_container <$> l) → e ∈ l →
  find_root (entry_container e) l = Some (entry_root e).
Proof.
  induction l as [|x l IH] using rev_ind; [by inversion 2|].
  rewrite fmap_app. simpl. intros Hnd [Hin|Hin]%elem_of_app.
  - apply NoDup_app in Hnd as (Hnd & Hdis & _).
    rewrite find_root_snoc, decide_False; [by apply IH|].
    intros Heq. apply (Hdis (entry_container e)).
    + apply list_elem_of_fmap. eauto.
    + rewrite Heq. apply list_elem_of_here.
  - apply list_elem_of_singleton in Hin as ->.
    by rewrite find_root_snoc, decide_True.
Qed.

Section Registry.

Variable rt : runtime.

Lemma resolve_container_same_registry base c :
  preserves same_registry (resolve_container base c).
Proof.
  unfold resolve_container. destruct c; frame; by intros s s' r [= <- _].
Qed.

Lemma renderRoot_same_registry ui o : preserves same_registry (renderRoot rt ui o).
Proof.
  eapply preserves_weaken; [apply only_runtime_same_registry|].
  apply renderRoot_only_runtime.
Qed.

Lemma create_runtime_root_only_runtime container (hydrate : bool) ui wrapper :
  preserves only_runtime
    (if hydrate
     then act (let* e := strictModeIfNeeded (wrapUiIfNeeded ui wrapper) in
               runtime_call rt (HydrateRoot container e))
     else runtime_call rt (CreateRoot container)).
Proof.
  destruct hydrate; unfold act, strictModeIfNeeded, getConfig_reactStrictMode; frame.
Qed.

(** A factory either throws before it builds anything or returns a new
    root-handle for the container. *)
Lemma create_root_spec container (legacyRoot hydrate : bool) ui wrapper s s' r :
  (if legacyRoot
   then createLegacyRoot container
   else createConcurrentRoot rt container hydrate ui wrapper) s = (s', r) →
  same_store s s' ∧
  match r with
  | Throw _ => same_roots s s'
  | Ok h =>
      allocatedRoots s' = allocatedRoots s ++ [h] ∧
      root_container h = container ∧
      root_id h = length (allocatedRoots s) ∧
      root_flavour h = if legacyRoot then LegacyRoot else ConcurrentRoot hydrate
  end.
Proof.
  destruct legacyRoot.
  - intros [= <- <-]. by repeat split.
  - unfold createConcurrentRoot. intros H.
    apply bind_inv in H as [(s1 & [] & H1 & H2)|(e & H1 & ->)].
    + apply create_runtime_root_only_runtime in H1 as (Hst & _ & Hr & _).
      injection H2 as <- <-. simpl. split; [done|].
      rewrite Hr. by repeat split.
    + by apply create_runtime_root_only_runtime in H1 as (Hst & _ & Hr & _).
Qed.

(** What [obtain_root] does to the store. *)
Lemma obtain_root_spec container (legacyRoot hydrate : bool) ui wrapper s s' r :
  obtain_root rt container legacyRoot hydrate ui wrapper s = (s', r) →
  if decide (container ∈ mountedContainers s)
  then s' = s ∧ r = Ok (find_root container (mountedRootEntries s))
  else match r with
       | Throw _ => same_registry s s'
       | Ok root =>
           ∃ h, root = Some h ∧
                root_container h = container ∧
                root_id h = length (allocatedRoots s) ∧
                allocatedRoots s' = allocatedRoots s ++ [h] ∧
                mountedRootEntries s' =
                  mountedRootEntries s ++
                    [{| entry_container := container; entry_root := h |}] ∧
                mountedContainers s' = {[container]} ∪ mountedContainers s
       end.
Proof.
  unfold obtain_root. unfold bind at 1. simpl.
  destruct (decide (container ∈ mountedContainers s)) as [Hin|Hin].
  - rewrite bool_decide_eq_true_2 by done. simpl. by intros [= <- <-].
  - rewrite bool_decide_eq_false_2 by done. simpl. intros H.
    apply bind_inv in H as [(s1 & h & H1 & H2)|(e & H1 & ->)].
    + apply create_root_spec in H1 as ([Hc He] & Ha & Hk & Hi & _).
      injection H2 as <- <-. simpl. exists h.
      rewrite Hc, He. by repeat split.
    + apply create_root_spec in H1 as (? & ?). by split.
Qed.

End Registry.

Section Store.

Variable rt : runtime.

(** A [render] either leaves the store and the root-handles alone, and
    then a result it returns holds the root found for a container that
    was in the set, or it records one new root-handle for a container
    that was not. *)
Lemma render_store ui o s s' r :
  render rt ui o s = (s', r) →
  (same_registry s s' ∧
   ∀ b, r = Ok b →
        rr_container b ∈ mountedContainers s ∧
        rr_root b = find_root (rr_container b) (mountedRootEntries s)) ∨
  (∃ c h,
     (c ∉ mountedContainers s) ∧
     root_container h = c ∧
     allocatedRoots s' = allocatedRoots s ++ [h] ∧
     mountedRootEntries s' =
       mountedRootEntries s ++ [{| entry_container := c; entry_root := h |}] ∧
     mountedContainers s' = {[c]} ∪ mountedContainers s ∧
     ∀ b, r = Ok b → rr_container b = c ∧ rr_root b = Some h).
Proof.
  rewrite render_unfold. destruct (legacy_check_fails rt o).
  { intros [= <- <-]. left. split; [done|]. intros b [=]. }
  intros H.
  apply bind_inv in H as [(s1 & container & H1 & H)|(e & H1 & ->)].
  2:{ left. split; [|intros b [=]].
      by apply resolve_container_same_registry in H1. }
  apply resolve_container_same_registry in H1 as [[Hc1 He1] Hr1].
  apply bind_inv in H as [(s2 & root & H2 & H)|(e & H2 & ->)].
  2:{ left. split; [|intros b [=]].
      apply obtain_root_spec in H2.
      destruct (decide (container ∈ mountedContainers s1)).
      - by destruct H2 as [_ [=]].
      - destruct H2 as [[Hc2 He2] Hr2]. repeat split; congruence. }
  apply obtain_root_spec in H2.
  pose proof (renderRoot_same_registry rt _ _ _ _ _ H) as [[Hc3 He3] Hr3].
  destruct (decide (container ∈ mountedContainers s1)) as [Hin|Hin].
  - destruct H2 as [-> [= ->]]. left. split.
    + repeat split; congruence.
    + intros b ->. apply renderRoot_Ok in H as ->. simpl.
      rewrite <-Hc1, <-He1. done.
  - destruct H2 as (h & -> & Hk & _ & Ha & He & Hc). right.
    exists container, h. rewrite Hc3, He3, Hr3, Ha, He, Hc, Hc1, He1, Hr1.
    split_and!; try done.
    + by rewrite <-Hc1.
    + intros b ->. by apply renderRoot_Ok in H as ->.
Qed.

Lemma renderHook_eq cb o s :
  renderHook rt cb o s =
    match render rt (JSX (TestComponent cb) (RenderCallbackProps (initialProps o)))
                 (renderOptions o) s with
    | (s', Ok b) => (s', Ok {| hook_callback := cb; hook_base := b |})
    | (s', Throw e) => (s', Throw e)
    end.
Proof.
  destruct (legacy_check_fails rt (renderOptions o)) eqn:Hc.
  - by rewrite renderHook_unchecked, render_unchecked.
  - unfold renderHook. unfold legacy_check_fails in Hc. rewrite Hc.
    unfold bind. by destruct (render _ _ _ _) as [s' [b|e]].
Qed.

Lemma same_store_bijection s s' :
  same_store s s' → store_bijection s → store_bijection s'.
Proof.
  unfold store_bijection, tracked_containers. by intros [-> ->].
Qed.

Lemma push_store_bijection s s' c h :
  c ∉ mountedContainers s →
  mountedRootEntries s' =
    mountedRootEntries s ++ [{| entry_container := c; entry_root := h |}] →
  mountedContainers s' = {[c]} ∪ mountedContainers s →
  store_bijection s → store_bijection s'.
Proof.
  unfold store_bijection, tracked_containers.
  intros Hc -> -> [Hnd Hiff]. rewrite fmap_app. simpl. split.
  - apply NoDup_app. split_and!; [done| |apply NoDup_singleton].
    intros x Hx ->%list_elem_of_singleton. by apply Hc, Hiff.
  - intros x. rewrite elem_of_union, elem_of_singleton, elem_of_app,
      list_elem_of_singleton, Hiff. tauto.
Qed.

Lemma render_store_bijection ui o s s' r :
  store_bijection s → render rt ui o s = (s', r) → store_bijection s'.
Proof.
  intros Hs H.
  apply render_store in H as [[[Hst _] _]|(c & h & Hc & _ & _ & He & Hm & _)].
  - by eapply same_store_bijection.
  - by eapply push_store_bijection.
Qed.

Lemma cleanup_store_bijection s s' r :
  store_bijection s → cleanup rt s = (s', r) → store_bijection s'.
Proof.
  intros Hs. rewrite cleanup_unfold.
  destruct (start_all rt (mountedRootEntries s) s) as [s1 [settled|x]] eqn:E;
    apply start_all_same_registry in E as [Hst _].
  - destruct (Promise_all settled); intros [= <- _].
    + split; [apply NoDup_nil_2|]. intros c.
      unfold tracked_containers. simpl. set_solver.
    + by eapply same_store_bijection.
  - intros [= <- _]. by eapply same_store_bijection.
Qed.

Lemma only_runtime_store_bijection {A} (c : M A) s s' r :
  preserves only_runtime c → store_bijection s → c s = (s', r) →
  store_bijection s'.
Proof.
  intros Hc Hs H. apply Hc in H as (Hst & _). by eapply same_store_bijection.
Qed.

(** Every call of the public surface keeps the bijection. *)
Lemma perform_store_bijection c s s' o :
  store_bijection s → perform rt c s = (s', o) → store_bijection s'.
Proof.
  intros Hs. destruct c; simpl.
  - destruct (render rt ui options s) as [s1 r] eqn:E. intros [= <- _].
    by eapply render_store_bijection.
  - rewrite renderHook_eq.
    destruct (render rt _ (renderOptions options) s) as [s1 r] eqn:E.
    apply (render_store_bijection _ _ _ _ _ Hs) in E.
    by destruct r; intros [= <- _].
  - destruct (rerender rt b ui s) as [s1 r] eqn:E. intros [= <- _].
    eapply only_runtime_store_bijection; [apply rerender_only_runtime|..]; done.
  - destruct (unmount rt b s) as [s1 r] eqn:E. intros [= <- _].
    eapply only_runtime_store_bijection; [apply unmount_only_runtime|..]; done.
  - destruct (hook_rerender rt h p s) as [s1 r] eqn:E. intros [= <- _].
    eapply only_runtime_store_bijection; [apply hook_rerender_only_runtime|..]; done.
  - destruct (hook_unmount rt h s) as [s1 r] eqn:E. intros [= <- _].
    eapply only_runtime_store_bijection; [apply hook_unmount_only_runtime|..]; done.
  - destruct (cleanup rt s) as [s1 r] eqn:E. intros [= <- _].
    by eapply cleanup_store_bijection.
Qed.

Lemma run_store_bijection calls s :
  store_bijection s → store_bijection (fst (run rt calls s)).
Proof.
  revert s. induction calls as [|c calls IH]; intros s Hs; [done|].
  simpl. destruct (perform rt c s) as [s1 o] eqn:E.
  apply (perform_store_bijection _ _ _ _ Hs) in E.
  specialize (IH s1 E). by destruct (run rt calls s1).
Qed.

End Store.

Lemma initial_store_bijection strict pn tn nn :
  store_bijection (initial_state strict pn tn nn).
Proof.
  split; [apply NoDup_nil_2|]. intros c.
  unfold tracked_containers. simpl. set_solver.
Qed.

(** C8, for calls that do not overlap: from the moment the module is
    loaded, when every call of the public surface ([render],
    [renderHook], [rerender], [unmount], [cleanup]) is awaited before the
    next one is made, then after every call, returned or thrown, the
    container set and the entry sequence are in bijection: no container
    has two entries, every member of the set has an entry and the
    container of every entry is in the set.
    (Renders that overlap break it; see the cut of [render] at its
    await.) *)
Theorem store_bijection_invariant (rt : runtime) (strict : bool)
    (pn : gmap node node) (tn : gmap node string) (nn : node)
    (calls : list call) :
  let s := fst (run rt calls (initial_state strict pn tn nn)) in
  NoDup (entry_container <$> mountedRootEntries s) ∧
  ∀ c, c ∈ mountedContainers s ↔ c ∈ entry_container <$> mountedRootEntries s.
Proof. apply run_store_bijection, initial_store_bijection. Qed.

(** *** One root-handle per container *)

#[local] Instance entries_grow_refl : Reflexive entries_grow.
Proof. intros s. exists []. by rewrite app_nil_r. Qed.
#[local] Instance entries_grow_trans : Transitive entries_grow.
Proof.
  intros s1 s2 s3 [m1 H1] [m2 H2]. exists (m1 ++ m2).
  by rewrite H2, H1, app_assoc.
Qed.

Lemma bundle_recorded_grow s s' b :
  entries_grow s s' → bundle_recorded s b → bundle_recorded s' b.
Proof.
  intros [more Hm] (h & Hr & Hin). exists h. split; [done|].
  rewrite Hm. apply elem_of_app. by left.
Qed.

Lemma same_registry_roots_recorded s s' :
  same_registry s s' → roots_recorded s → roots_recorded s'.
Proof. unfold roots_recorded. by intros [[_ ->] ->]. Qed.

Lemma same_registry_entries_grow s s' : same_registry s s' → entries_grow s s'.
Proof. intros [[_ He] _]. exists []. by rewrite app_nil_r. Qed.

Section OneRootPerContainer.

Variable rt : runtime.

Lemma render_roots_recorded ui o s s' r :
  roots_recorded s → render rt ui o s = (s', r) →
  roots_recorded s' ∧ entries_grow s s'.
Proof.
  intros [Ha Hk] H.
  apply render_store in H as [[Hreg _]|(c & h & _ & Hc & Hal & He & _ & _)].
  - split; [by eapply same_registry_roots_recorded|].
    by apply same_registry_entries_grow.
  - split; [split|].
    + by rewrite Hal, He, fmap_app, Ha.
    + rewrite He. intros e [Hin| ->%list_elem_of_singleton]%elem_of_app; auto.
    + by eexists.
Qed.

Lemma render_bundle_recorded ui o s s' b :
  store_bijection s → render rt ui o s = (s', Ok b) → bundle_recorded s' b.
Proof.
  intros [Hnd Hiff] H.
  apply render_store in H as [[[[_ He] _] Hb]|(c & h & _ & _ & _ & He & _ & Hb)].
  - destruct (Hb b eq_refl) as [Hin Hroot].
    apply Hiff, list_elem_of_fmap in Hin as (e & Hc & Hin).
    exists (entry_root e). rewrite Hroot, Hc. split.
    + by apply find_root_elem.
    + rewrite He. by destruct e.
  - destruct (Hb b eq_refl) as [<- Hroot]. exists h. split; [done|].
    rewrite He. apply elem_of_app. right. apply list_elem_of_here.
Qed.

Lemma only_runtime_step {A} (c : M A) s s' r :
  preserves only_runtime c → c s = (s', r) →
  store_bijection s → roots_recorded s →
  store_bijection s' ∧ roots_recorded s' ∧ entries_grow s s'.
Proof.
  intros Hc H Hs Hr. apply Hc in H. apply only_runtime_same_registry in H.
  split_and!.
  - eapply same_store_bijection; [apply H|done].
  - by eapply same_registry_roots_recorded.
  - by apply same_registry_entries_grow.
Qed.

(** A call other than [cleanup] keeps what was recorded and records the
    root-handle of the result it returns. *)
Lemma perform_no_cleanup c s s' o :
  is_cleanup c = false →
  store_bijection s → roots_recorded s →
  perform rt c s = (s', o) →
  store_bijection s' ∧ roots_recorded s' ∧ entries_grow s s' ∧
  ∀ b, outcome_bundle o = Some b → bundle_recorded s' b.
Proof.
  intros Hc Hs Hr H.
  pose proof (perform_store_bijection rt c s s' o Hs H) as Hs'.
  destruct c; simpl in H; try discriminate Hc.
  - destruct (render rt ui options s) as [s1 r] eqn:E.
    injection H as <- <-.
    destruct (render_roots_recorded _ _ _ _ _ Hr E) as [? ?].
    split_and!; try done.
    destruct r as [b'|]; simpl; intros b [= <-].
    eapply render_bundle_recorded; [exact Hs | exact E].
  - rewrite renderHook_eq in H.
    destruct (render rt _ (renderOptions options) s) as [s1 r] eqn:E.
    destruct (render_roots_recorded _ _ _ _ _ Hr E) as [? ?].
    destruct r as [b'|]; injection H as <- <-; split_and!; try done;
      simpl; intros b [= <-].
    eapply render_bundle_recorded; [exact Hs | exact E].
  - destruct (rerender rt b ui s) as [s1 r] eqn:E. injection H as <- <-.
    destruct (only_runtime_step _ _ _ _ (rerender_only_runtime rt b ui) E Hs Hr)
      as (? & ? & ?).
    split_and!; done.
  - destruct (unmount rt b s) as [s1 r] eqn:E. injection H as <- <-.
    destruct (only_runtime_step _ _ _ _ (unmount_only_runtime rt b) E Hs Hr)
      as (? & ? & ?).
    split_and!; done.
  - destruct (hook_rerender rt h p s) as [s1 r] eqn:E. injection H as <- <-.
    destruct (only_runtime_step _ _ _ _ (hook_rerender_only_runtime rt h p) E Hs Hr)
      as (? & ? & ?).
    split_and!; done.
  - destruct (hook_unmount rt h s) as [s1 r] eqn:E. injection H as <- <-.
    destruct (only_runtime_step _ _ _ _ (hook_unmount_only_runtime rt h) E Hs Hr)
      as (? & ? & ?).
    split_and!; done.
Qed.

Lemma run_no_cleanup calls s s' outs :
  Forall (λ c, is_cleanup c = false) calls →
  store_bijection s → roots_recorded s →
  run rt calls s = (s', outs) →
  store_bijection s' ∧ roots_recorded s' ∧ entries_grow s s' ∧
  ∀ o b, o ∈ outs → outcome_bundle o = Some b → bundle_recorded s' b.
Proof.
  intros Hcalls. revert s s' outs.
  induction Hcalls as [|c calls Hc Hcalls IH]; intros s s' outs Hs Hr.
  - intros [= <- <-]. split_and!; try done. intros o b Hin. inversion Hin.
  - simpl. destruct (perform rt c s) as [s1 o1] eqn:E1.
    destruct (run rt calls s1) as [s2 os] eqn:E2. intros [= <- <-].
    destruct (perform_no_cleanup _ _ _ _ Hc Hs Hr E1) as (Hs1 & Hr1 & Hg1 & Hb1).
    destruct (IH _ _ _ Hs1 Hr1 E2) as (Hs2 & Hr2 & Hg2 & Hb2).
    split_and!; try done; [by etrans|].
    intros o b [-> |Hin]%elem_of_cons Hob.
    + eapply bundle_recorded_grow; eauto.
    + eauto.
Qed.

End OneRootPerContainer.

Lemma recorded_containers s :
  roots_recorded s → root_container <$> allocatedRoots s = tracked_containers s.
Proof.
  intros [-> Hk]. unfold tracked_containers. rewrite <-list_fmap_compose.
  apply list_fmap_ext. intros i e He. simpl.
  apply Hk. by eapply list_elem_of_lookup_2.
Qed.

Lemma bundle_recorded_unique s b1 b2 :
  store_bijection s → bundle_recorded s b1 → bundle_recorded s b2 →
  rr_container b1 = rr_container b2 → rr_root b1 = rr_root b2.
Proof.
  intros [Hnd _] (h1 & -> & Hin1) (h2 & -> & Hin2) Hc.
  apply (find_root_elem _ _ Hnd) in Hin1, Hin2. simpl in *.
  rewrite Hc in Hin1. congruence.
Qed.

(** C1, for calls that do not overlap: from the moment the module is
    loaded and as long as [cleanup] is not called, along every sequence
    of calls each awaited before the next one is made, in particular
    along every such sequence of [render] calls, no two root-handles are
    ever built for the same container; the root-handle held by the result
    of a render is one that was built for the container of that result
    and is recorded with it in the store; and two renders into the same
    container return the same root-handle.
    (Renders that overlap break it; see the cut of [render] at its
    await.) *)
Theorem one_root_per_container (rt : runtime) (strict : bool)
    (pn : gmap node node) (tn : gmap node string) (nn : node)
    (calls : list call) (s : state) (outs : list outcome) :
  Forall (λ c, is_cleanup c = false) calls →
  run rt calls (initial_state strict pn tn nn) = (s, outs) →
  NoDup (root_container <$> allocatedRoots s) ∧
  (∀ o b, o ∈ outs → outcome_bundle o = Some b →
     ∃ h, rr_root b = Some h ∧ h ∈ allocatedRoots s ∧
          root_container h = rr_container b ∧
          {| entry_container := rr_container b; entry_root := h |}
            ∈ mountedRootEntries s) ∧
  (∀ o1 o2 b1 b2, o1 ∈ outs → o2 ∈ outs →
     outcome_bundle o1 = Some b1 → outcome_bundle o2 = Some b2 →
     rr_container b1 = rr_container b2 → rr_root b1 = rr_root b2).
Proof.
  intros Hcalls H.
  assert (Hr0 : roots_recorded (initial_state strict pn tn nn)).
  { split; [done|]. intros e Hin. inversion Hin. }
  destruct (run_no_cleanup rt calls _ _ _ Hcalls
              (initial_store_bijection strict pn tn nn) Hr0 H)
    as (Hs & Hr & _ & Hb).
  split_and!.
  - rewrite recorded_containers by done. apply Hs.
  - intros o b Hin Hob. destruct (Hb o b Hin Hob) as (h & Hroot & He).
    exists h. destruct Hr as [Ha Hk]. split_and!; try done.
    + rewrite Ha. apply list_elem_of_fmap. by eexists; split; [|exact He].
    + by apply (Hk _ He).
  - intros o1 o2 b1 b2 Hin1 Hin2 Hb1 Hb2.
    eapply bundle_recorded_unique; eauto.
Qed.

Lemma one_root_per_container_witness :
  let out := run (quiet_runtime false)
               [CallRender (Markup "<span>hi</span>") (with_container 2);
                CallRender (Markup "<span>bye</span>") (with_container 2)]
               document_with_divs in
  NoDup (root_container <$> allocatedRoots (fst out)) ∧
  allocatedRoots (fst out) = [plain_root] ∧
  ∃ b1 b2, snd out = [Rendered (Ok b1); Rendered (Ok b2)] ∧
           rr_container b1 = rr_container b2 ∧ rr_root b1 = rr_root b2.
Proof.
  intros out.
  destruct (one_root_per_container (quiet_runtime false) false
              {[0 := 1; 2 := 0]}
              {[0 := "body"; 1 := "html"; 2 := "div"; 3 := "div"]} 4
              [CallRender (Markup "<span>hi</span>") (with_container 2);
               CallRender (Markup "<span>bye</span>") (with_container 2)]
              (fst out) (snd out)) as (Hnd & _ & Hsame).
  - repeat constructor.
  - reflexivity.
  - split; [exact Hnd|]. split; [reflexivity|].
    exists {| rr_container := 2; rr_baseElement := 2; rr_root := Some plain_root;
              rr_wrapper := None; rr_queries := None |},
           {| rr_container := 2; rr_baseElement := 2; rr_root := Some plain_root;
              rr_wrapper := None; rr_queries := None |}.
    split; [reflexivity|]. split; [reflexivity|].
    eapply (Hsame (Rendered (Ok _)) (Rendered (Ok _)));
      [apply list_elem_of_here | apply list_elem_of_further, list_elem_of_here
      | reflexivity | reflexivity | reflexivity].
Defined.

(** *** The document after [cleanup] *)

Section CleanupResolved.

Variable rt : runtime.

Lemma cleanup_Ok s s' :
  cleanup rt s = (s', Ok tt) →
  mountedContainers s' = ∅ ∧ mountedRootEntries s' = [] ∧
  parentNode s' = foldl detach (parentNode s) (tracked_containers s).
Proof.
  rewrite cleanup_unfold.
  destruct (start_all rt (mountedRootEntries s) s) as [s1 [settled|x]] eqn:E;
    [|done].
  destruct (Promise_all settled) as [vs|x] eqn:Ep; [|done].
  apply Promise_all_Ok in Ep as ->. apply start_all_parents in E.
  by intros [= <-].
Qed.


End CleanupResolved.




(** C3: the [hydrate] method of a concurrent root-handle does nothing when
    the handle was built for hydration and throws the internal-invariant
    error otherwise; and the throwing branch is reached through the public
    surface: a [render] into a container followed by a [render] with
    [hydrate: true] into the same container reuses the root-handle that
    was built without hydration and throws that error. *)
Theorem hydrate_of_plain_root_is_reachable :
  (∀ rt i c hydrate e s,
     root_hydrate rt
       {| root_id := i; root_flavour := ConcurrentRoot hydrate;
          root_container := c |} e s
     = (s, if hydrate then Ok tt else Throw (JsError nonHydrateableMessage))) ∧
  snd (run (quiet_runtime false)
         [CallRender (Markup "<span>hi</span>") (with_container 2);
          CallRender (Markup "<span>hi</span>") (with_hydrate 2)]
         document_with_divs)
  = [Rendered (Ok {| rr_container := 2; rr_baseElement := 2;
                     rr_root := Some plain_root; rr_wrapper := None;
                     rr_queries := None |});
     Rendered (Throw (JsError
       "Attempted to hydrate a non-hydrateable root. This is a bug in `@testing-library/react`."))].
Proof.
  split.
  - intros rt i c [] e s; reflexivity.
  - reflexivity.
Qed.

(** ** Further properties of the adapter *)

Lemma runtime_call_inv rt c s s' r :
  runtime_call rt c s = (s', r) →
  s' = set_rtLog (rtLog s ++ [c]) s ∧
  r = if rt_throws rt (rtLog s) c then Throw (Thrown c) else Ok tt.
Proof. by intros [= <- <-]. Qed.

Lemma root_unmount_eq rt h s :
  root_unmount rt h s = runtime_call rt (unmount_call h) s.
Proof. unfold root_unmount, unmount_call, act. by destruct (root_flavour h). Qed.

Lemma bundle_recorded_same_store s s' b :
  same_store s s' → bundle_recorded s b → bundle_recorded s' b.
Proof. intros [_ He] (h & Hr & Hin). exists h. by rewrite He. Qed.

(** A result whose root-handle is recorded gets that handle again from a
    [render] into its container. *)
Lemma render_recorded_container rt ui o s s' b b' :
  store_bijection s → bundle_recorded s b →
  render rt ui o s = (s', Ok b') →
  rr_container b' = rr_container b →
  rr_root b' = rr_root b ∧ same_registry s s'.
Proof.
  intros [Hnd Hiff] (h & Hr & Hin) H Hc.
  apply render_store in H as [[Hreg Hb]|(c & h' & Hnot & _ & _ & _ & _ & Hb)].
  - split; [|done]. destruct (Hb b' eq_refl) as [_ ->].
    rewrite Hr, Hc. by apply (find_root_elem _ _ Hnd) in Hin.
  - destruct (Hb b' eq_refl) as [<- _]. exfalso. apply Hnot, Hiff.
    rewrite Hc. apply list_elem_of_fmap. by eexists; split; [|exact Hin].
Qed.

(** *** More on [cleanup] *)

Section CleanupMore.

Variable rt : runtime.

Lemma state_eta s :
  set_mountedContainers (mountedContainers s)
    (set_mountedRootEntries (mountedRootEntries s) s) = s.
Proof. by destruct s. Qed.

Lemma cleanup_empty s :
  mountedRootEntries s = [] → mountedContainers s = ∅ →
  cleanup rt s = (s, Ok tt).
Proof.
  intros He Hc. rewrite cleanup_unfold, He. simpl.
  by rewrite <-He, <-Hc, state_eta.
Qed.

Lemma cleanup_entry_log e s s' r :
  cleanup_entry rt e s = (s', r) →
  rtLog s' = rtLog s ++ [unmount_call (entry_root e)].
Proof.
  unfold cleanup_entry, act. unfold bind at 1. rewrite root_unmount_eq.
  unfold runtime_call at 1.
  destruct (rt_throws rt (rtLog s) (unmount_call (entry_root e))).
  - by intros [= <- _].
  - unfold bind at 1. simpl.
    destruct (decide _); [|by intros [= <- _]].
    unfold bind, removeChild. simpl.
    destruct (decide _); by intros [= <- _].
Qed.

Lemma start_all_log l s s' r :
  start_all rt l s = (s', r) →
  rtLog s' = rtLog s ++ (unmount_call ∘ entry_root <$> l).
Proof.
  revert s s' r. induction l as [|e l IH]; intros s s' r.
  - intros [= <- _]. by rewrite app_nil_r.
  - rewrite start_all_cons.
    destruct (cleanup_entry rt e s) as [s1 r1] eqn:E1.
    destruct (start_all rt l s1) as [s2 r2] eqn:E2.
    apply cleanup_entry_log in E1. apply IH in E2.
    destruct r2; intros [= <- _]; rewrite E2, E1; simpl; by rewrite <-app_assoc.
Qed.

Lemma cleanup_same_roots : preserves same_roots (cleanup rt).
Proof.
  intros s s' r. rewrite cleanup_unfold.
  destruct (start_all rt (mountedRootEntries s) s) as [s1 [settled|x]] eqn:E;
    apply start_all_same_registry in E as [_ Hr].
  - destruct (Promise_all settled); by intros [= <- _].
  - by intros [= <- _].
Qed.

End CleanupMore.

(** X2: [cleanup] is idempotent.  With an empty store it makes no runtime
    call and leaves the whole state as it is, and a [cleanup] that
    follows a [cleanup] that resolved does exactly that. *)
Theorem cleanup_idempotent (rt : runtime) (s : state) :
  (mountedRootEntries s = [] → mountedContainers s = ∅ →
   cleanup rt s = (s, Ok tt)) ∧
  (∀ s1, cleanup rt s = (s1, Ok tt) → cleanup rt s1 = (s1, Ok tt)).
Proof.
  split; [apply cleanup_empty|].
  intros s1 H. apply cleanup_Ok in H as (Hc & He & _).
  by apply cleanup_empty.
Qed.

Lemma cleanup_idempotent_witness :
  let s1 := fst (cleanup (quiet_runtime false) after_first_render) in
  cleanup (quiet_runtime false) empty_document = (empty_document, Ok tt) ∧
  rtLog s1 = [CreateRoot 2; RootRender 0 (Markup "<span>hi</span>"); RootUnmount 0] ∧
  cleanup (quiet_runtime false) s1 = (s1, Ok tt).
Proof.
  intros s1.
  destruct (cleanup_idempotent (quiet_runtime false) empty_document) as [H0 _].
  destruct (cleanup_idempotent (quiet_runtime false) after_first_render) as [_ H1].
  split; [exact (H0 eq_refl eq_refl)|]. split; [reflexivity|].
  exact (H1 s1 eq_refl).
Defined.

(** X3: whatever its outcome, [cleanup] calls the runtime unmount of every
    tracked root-handle exactly once, in the order in which the entries
    were recorded, and makes no other runtime call: a callback that fails
    does not keep the later ones from being started. *)
Theorem cleanup_unmounts_every_root (rt : runtime) (s s' : state)
    (r : result unit) :
  cleanup rt s = (s', r) →
  rtLog s' = rtLog s ++ (unmount_call ∘ entry_root <$> mountedRootEntries s) ∧
  allocatedRoots s' = allocatedRoots s.
Proof.
  intros H. split; [|by apply cleanup_same_roots in H].
  rewrite cleanup_unfold in H.
  destruct (start_all rt (mountedRootEntries s) s) as [s1 [settled|x]] eqn:E;
    apply start_all_log in E.
  - destruct (Promise_all settled); by injection H as <- _.
  - by injection H as <- _.
Qed.

Lemma cleanup_unmounts_every_root_witness :
  let out := cleanup (unmount_fails 0) after_two_renders in
  snd out = Throw (Thrown (RootUnmount 0)) ∧
  rtLog (fst out) = rtLog after_two_renders ++ [RootUnmount 0; RootUnmount 1].
Proof.
  intros out.
  destruct (cleanup_unmounts_every_root (unmount_fails 0) after_two_renders
              (fst out) (snd out) eq_refl) as [Hlog _].
  split; [reflexivity | exact Hlog].
Defined.

(** *** The runs of the factories and of [renderRoot], in full *)

Section Runs.

Variable rt : runtime.

Lemma create_runtime_root_run container (hydrate : bool) ui wrapper s :
  (if hydrate
   then act (let* e := strictModeIfNeeded (wrapUiIfNeeded ui wrapper) in
             runtime_call rt (HydrateRoot container e))
   else runtime_call rt (CreateRoot container)) s
  = runtime_call rt
      (creation_call container hydrate
         (decoration_spec (reactStrictMode s) wrapper ui)) s.
Proof.
  destruct hydrate; [|done]. unfold act, bind. by rewrite decorated_eq.
Qed.

(** The factory, on a container that is not tracked: it throws what the
    runtime threw when the root was created, or [render] records the new
    handle. *)
Lemma obtain_root_untracked container (legacyRoot hydrate : bool) ui wrapper s :
  container ∉ mountedContainers s →
  obtain_root rt container legacyRoot hydrate ui wrapper s =
    let h := next_root container legacyRoot hydrate s in
    if legacyRoot
    then (record_root container h s, Ok (Some h))
    else
      let x := creation_call container hydrate
                 (decoration_spec (reactStrictMode s) wrapper ui) in
      let s1 := set_rtLog (rtLog s ++ [x]) s in
      if rt_throws rt (rtLog s) x
      then (s1, Throw (Thrown x))
      else (record_root container h s1, Ok (Some h)).
Proof.
  intros Hc. unfold obtain_root. unfold bind at 1. simpl.
  rewrite bool_decide_eq_false_2 by done. simpl.
  destruct legacyRoot; [done|].
  unfold bind at 1, createConcurrentRoot. unfold bind at 1.
  rewrite create_runtime_root_run. unfold runtime_call.
  by destruct (rt_throws rt (rtLog s) _).
Qed.

Lemma obtain_root_tracked container (legacyRoot hydrate : bool) ui wrapper s :
  container ∈ mountedContainers s →
  obtain_root rt container legacyRoot hydrate ui wrapper s
  = (s, Ok (find_root container (mountedRootEntries s))).
Proof.
  intros Hc. unfold obtain_root. unfold bind at 1. simpl.
  by rewrite bool_decide_eq_true_2 by done.
Qed.

(** [renderRoot] on a root-handle: one runtime call through the handle,
    whose exception is passed on, or the [hydrate] method of a concurrent
    root, which calls nothing. *)
Lemma renderRoot_run ui o h s :
  ro_root o = Some h →
  renderRoot rt ui o s =
    let e := decoration_spec (reactStrictMode s) (ro_wrapper o) ui in
    match handle_call h (ro_hydrate o) e with
    | Some x =>
        (set_rtLog (rtLog s ++ [x]) s,
         if rt_throws rt (rtLog s) x then Throw (Thrown x) else Ok (bundle_of o))
    | None =>
        (s, match root_flavour h with
            | ConcurrentRoot false => Throw (JsError nonHydrateableMessage)
            | _ => Ok (bundle_of o)
            end)
    end.
Proof.
  intros Hr. unfold renderRoot, handle_call, bundle_of. rewrite Hr.
  unfold bind at 1. destruct (ro_hydrate o).
  - unfold bind at 1. rewrite decorated_eq. simpl.
    unfold root_hydrate, act. destruct (root_flavour h) as [[]|]; try done.
    unfold runtime_call. simpl. by destruct (rt_throws _ _ _).
  - unfold bind at 1. rewrite decorated_eq. simpl.
    rewrite root_render_eq. unfold runtime_call. simpl.
    by destruct (rt_throws _ _ _).
Qed.

Lemma find_root_None c l :
  find_root c l = None ↔ c ∉ entry_container <$> l.
Proof.
  induction l as [|e l IH] using rev_ind; [by split; [inversion 2|]|].
  rewrite find_root_snoc, fmap_app, not_elem_of_app. simpl.
  rewrite list_elem_of_singleton.
  destruct (decide (entry_container e = c)) as [<-|Hne].
  - split; [done|]. by intros [_ ?].
  - rewrite IH. split; [intros ?; split; congruence | by intros [? _]].
Qed.

Lemma find_root_tracked s c :
  store_bijection s → c ∈ mountedContainers s →
  ∃ h, find_root c (mountedRootEntries s) = Some h.
Proof.
  intros [_ Hiff] Hc.
  destruct (find_root c (mountedRootEntries s)) as [h|] eqn:E; [eauto|].
  apply find_root_None in E. by apply Hiff in Hc.
Qed.

Lemma resolve_container_run o s :
  ∃ s1, resolve_container (resolved_baseElement o) (opt_container o) s
        = (s1, Ok (resolved_container o s)) ∧
        same_registry s s1 ∧ same_trace s s1 ∧ allocator_grows s s1.
Proof.
  unfold resolved_container, allocator_grows.
  destruct (opt_container o) eqn:Ho; eexists; (split; [reflexivity|]);
    repeat split; simpl; lia.
Qed.

End Runs.

(** X4: the root-handle of a container does not survive [cleanup].  After
    a [cleanup] that resolved, a [render] that returns has built a new
    root-handle, also when its container had been rendered into before,
    and the store holds exactly the entry of this render. *)
Theorem render_after_cleanup_builds_root (rt : runtime) (ui : element)
    (o : render_options) (s s1 s2 : state) (b : render_result) :
  cleanup rt s = (s1, Ok tt) →
  render rt ui o s1 = (s2, Ok b) →
  ∃ h, rr_root b = Some h ∧
       root_container h = rr_container b ∧
       allocatedRoots s2 = allocatedRoots s ++ [h] ∧
       mountedRootEntries s2 =
         [{| entry_container := rr_container b; entry_root := h |}] ∧
       mountedContainers s2 = {[rr_container b]}.
Proof.
  intros Hc Hr.
  pose proof (cleanup_same_roots rt _ _ _ Hc) as Hroots.
  apply cleanup_Ok in Hc as (Hset & Hent & _).
  apply render_store in Hr as [[_ Hb]|(c & h & _ & Hk & Hal & He & Hm & Hb)].
  - destruct (Hb b eq_refl) as [Hin _]. rewrite Hset in Hin. set_solver.
  - destruct (Hb b eq_refl) as [<- Hroot]. exists h.
    rewrite Hal, He, Hm, Hset, Hent, Hroots. split_and!; try done.
    by rewrite union_empty_r_L.
Qed.

Lemma render_after_cleanup_builds_root_witness :
  let s1 := fst (cleanup (quiet_runtime false) after_first_render) in
  let out := render (quiet_runtime false) (Markup "<span>again</span>")
               (with_container 2) s1 in
  ∃ b h, snd out = Ok b ∧ rr_root b = Some h ∧ root_id h = 1 ∧
         allocatedRoots (fst out) = [plain_root; h] ∧
         mountedRootEntries (fst out) =
           [{| entry_container := 2; entry_root := h |}].
Proof.
  intros s1 out.
  destruct (render_after_cleanup_builds_root (quiet_runtime false)
              (Markup "<span>again</span>") (with_container 2)
              after_first_render s1 (fst out)
              {| rr_container := 2; rr_baseElement := 2;
                 rr_root := Some {| root_id := 1;
                                    root_flavour := ConcurrentRoot false;
                                    root_container := 2 |};
                 rr_wrapper := None; rr_queries := None |}
              eq_refl eq_refl) as (h & Hroot & _ & Hal & He & _).
  injection Hroot as <-.
  eexists _, _. split; [reflexivity|]. split; [reflexivity|].
  split; [reflexivity|]. split; [exact Hal | exact He].
Defined.

(** *** What [render] throws and what it calls *)

Section RenderOutcomes.

Variable rt : runtime.

(** Past the capability check, [render] is the factory or the lookup,
    then [renderRoot], from the state in which the container is
    resolved. *)
Lemma render_checked ui o s :
  legacy_check_fails rt o = false →
  ∃ s1, same_registry s s1 ∧ same_trace s s1 ∧ allocator_grows s s1 ∧
        (truthy (opt_container o) = true → s1 = s) ∧
        render rt ui o s =
          (let* root :=
             obtain_root rt (resolved_container o s) (opt_legacyRoot o)
               (opt_hydrate o) ui (opt_wrapper o) in
           renderRoot rt ui
             {| ro_container := resolved_container o s;
                ro_baseElement := resolved_baseElement o;
                ro_queries := opt_queries o;
                ro_hydrate := opt_hydrate o;
                ro_wrapper := opt_wrapper o;
                ro_root := root |}) s1.
Proof.
  intros Hc. destruct (resolve_container_run o s) as (s1 & E & Hreg & Htr & Hal).
  exists s1. split_and!; try done.
  - intros Ht. destruct (opt_container o) eqn:Ho; try discriminate Ht.
    unfold resolve_container in E. by injection E as <-.
  - rewrite render_unfold, Hc. unfold bind at 1. by rewrite E.
Qed.

Lemma renderRoot_throws ui o h s s' e :
  ro_root o = Some h →
  renderRoot rt ui o s = (s', Throw e) →
  e = JsError nonHydrateableMessage ∨
  ∃ x, e = Thrown x ∧ is_creation_call x = false ∧
       rtLog s' = rtLog s ++ [x] ∧ rt_throws rt (rtLog s) x = true.
Proof.
  intros Hr. rewrite (renderRoot_run rt ui o h s Hr). cbv zeta.
  destruct (handle_call h (ro_hydrate o) _) as [x|] eqn:Hx.
  - destruct (rt_throws rt (rtLog s) x) eqn:Ht; intros [= <- <-].
    right. exists x. split_and!; try done.
    unfold handle_call, mount_call in Hx.
    destruct (ro_hydrate o), (root_flavour h); by inversion Hx.
  - destruct (root_flavour h) as [[]|]; intros [= <- <-]. by left.
Qed.

Lemma obtain_root_throws container legacyRoot hydrate ui wrapper s s' e :
  obtain_root rt container legacyRoot hydrate ui wrapper s = (s', Throw e) →
  same_registry s s' ∧
  ∃ x, e = Thrown x ∧ is_creation_call x = true ∧
       rtLog s' = rtLog s ++ [x] ∧ rt_throws rt (rtLog s) x = true.
Proof.
  destruct (decide (container ∈ mountedContainers s)) as [Hc|Hc].
  - by rewrite obtain_root_tracked.
  - rewrite obtain_root_untracked by done. cbv zeta.
    destruct legacyRoot; [done|].
    destruct (rt_throws rt (rtLog s) _) eqn:Ht; intros [= <- <-].
    split; [done|]. eexists. split_and!; try done. by destruct hydrate.
Qed.

Lemma obtain_root_Some container legacyRoot hydrate ui wrapper s s' root :
  store_bijection s →
  obtain_root rt container legacyRoot hydrate ui wrapper s = (s', Ok root) →
  ∃ h, root = Some h.
Proof.
  intros Hs. destruct (decide (container ∈ mountedContainers s)) as [Hc|Hc].
  - rewrite obtain_root_tracked by done. intros [= <- <-].
    by apply find_root_tracked.
  - rewrite obtain_root_untracked by done. cbv zeta.
    destruct legacyRoot; [intros [= <- <-]; eauto|].
    destruct (rt_throws rt (rtLog s) _); intros [= <- <-]; eauto.
Qed.

End RenderOutcomes.

(** X5: with the store in bijection, [render] throws nothing but the
    legacy-root-unsupported error (from the unchanged state), the
    internal-invariant error of [hydrate], or what the runtime threw, and
    then unmodified: it is the exception of the runtime call that the
    trace ends with.  In particular the lookup of the reuse branch never
    leaves [root] undefined. *)
Theorem render_throws_only (rt : runtime) (ui : element) (o : render_options)
    (s s' : state) (e : exn) :
  store_bijection s →
  render rt ui o s = (s', Throw e) →
  (e = legacy_root_unsupported ∧ s' = s) ∨
  e = JsError nonHydrateableMessage ∨
  ∃ c, e = Thrown c ∧ thrown_by_last_call rt c s'.
Proof.
  intros Hs H. destruct (legacy_check_fails rt o) eqn:Hc.
  { rewrite render_unchecked in H by done. injection H as <- <-. by left. }
  right. destruct (render_checked rt ui o s Hc) as (s1 & [Hst _] & _ & _ & _ & E).
  rewrite E in H. clear E.
  apply (same_store_bijection _ _ Hst) in Hs.
  apply bind_inv in H as [(s2 & root & H1 & H2)|(e' & H1 & [= ->])].
  - destruct (obtain_root_Some rt _ _ _ _ _ _ _ _ Hs H1) as [h ->].
    apply (renderRoot_throws rt _ _ h) in H2; [|done].
    destruct H2 as [->|(x & -> & _ & Hl & Ht)]; [by left|].
    right. exists x. split; [done|]. by exists (rtLog s2).
  - apply obtain_root_throws in H1 as (_ & x & -> & _ & Hl & Ht).
    right. exists x. split; [done|]. by exists (rtLog s1).
Qed.

Lemma render_throws_only_witness :
  let out := render {| single_shot_api := false; rt_throws := λ _ _, true |}
               (Markup "<span>hi</span>") no_options empty_document in
  snd out = Throw (Thrown (CreateRoot 2)) ∧
  thrown_by_last_call {| single_shot_api := false; rt_throws := λ _ _, true |}
    (CreateRoot 2) (fst out).
Proof.
  intros out.
  destruct (render_throws_only
              {| single_shot_api := false; rt_throws := λ _ _, true |}
              (Markup "<span>hi</span>") no_options empty_document (fst out)
              (Thrown (CreateRoot 2)) (initial_store_bijection _ _ _ _) eq_refl)
    as [[Hl _]|[Hh|(c & Hc & Hlast)]].
  - discriminate Hl.
  - discriminate Hh.
  - injection Hc as <-. split; [reflexivity | exact Hlast].
Defined.

(** X6: the branch of the lookup that the source calls unreachable is
    reached exactly as its comment says: when the set has the container
    and no entry has it, [root] stays undefined and [render] throws the
    [TypeError] of the method call, with nothing changed. *)
Theorem render_orphan_container_TypeError (rt : runtime) (ui : element)
    (o : render_options) (c : node) (s : state) :
  legacy_check_fails rt o = false →
  opt_container o = Val c →
  c ∈ mountedContainers s →
  c ∉ tracked_containers s →
  render rt ui o s
  = (s, Throw (TypeError
                 (if opt_hydrate o
                  then "Cannot read properties of undefined (reading 'hydrate')"
                  else "Cannot read properties of undefined (reading 'render')"))).
Proof.
  intros Hc Ho Hin Hnot.
  destruct (render_checked rt ui o s Hc) as (s1 & _ & _ & _ & Hs1 & E).
  rewrite E. rewrite Hs1 by (by rewrite Ho). clear E.
  unfold resolved_container. rewrite Ho. unfold bind at 1.
  rewrite obtain_root_tracked by done.
  apply find_root_None in Hnot. rewrite Hnot.
  unfold renderRoot. simpl. unfold bind at 1.
  destruct (opt_hydrate o); unfold bind at 1; by rewrite decorated_eq.
Qed.

Lemma render_orphan_container_TypeError_witness :
  render (quiet_runtime false) (Markup "<span>hi</span>") (with_container 7)
    orphan_container
  = (orphan_container,
     Throw (TypeError "Cannot read properties of undefined (reading 'render')")).
Proof.
  apply (render_orphan_container_TypeError (quiet_runtime false) _
           (with_container 7) 7 orphan_container).
  - reflexivity.
  - reflexivity.
  - vm_compute. reflexivity.
  - intros Hin. inversion Hin.
Defined.

(** X1: the [unmount] of a render result makes one runtime call, the
    unmount of its root-handle, and does not touch the store or build a
    root-handle: the container stays tracked.  A later [render] into the
    container (without [hydrate]) therefore builds no root-handle either:
    it records nothing and calls the [render] method of the same,
    unmounted, root-handle, whether the runtime then accepts the call or
    throws. *)
Theorem unmount_keeps_container_tracked (rt : runtime) (b : render_result)
    (s s1 : state) (r1 : result unit) :
  store_bijection s → bundle_recorded s b →
  unmount rt b s = (s1, r1) →
  same_store s s1 ∧ same_roots s s1 ∧
  ∃ root,
    rr_root b = Some root ∧
    rtLog s1 = rtLog s ++ [unmount_call root] ∧
    ∀ ui o s2 r2,
      legacy_check_fails rt o = false →
      opt_container o = Val (rr_container b) →
      opt_hydrate o = false →
      render rt ui o s1 = (s2, r2) →
      same_store s s2 ∧ same_roots s s2 ∧
      rtLog s2 =
        rtLog s1 ++
          [mount_call root
             (decoration_spec (reactStrictMode s1) (opt_wrapper o) ui)] ∧
      ∀ b2, r2 = Ok b2 → rr_root b2 = Some root.
Proof.
  intros Hs (root & Hroot & Hin) H.
  destruct (unmount_only_runtime rt b s s1 r1 H) as ([Hm He] & _ & Hr & _).
  split; [done|]. split; [done|]. exists root. split; [done|]. split.
  { unfold unmount in H. rewrite Hroot in H. simpl in H.
    rewrite root_unmount_eq in H. by apply runtime_call_inv in H as [-> _]. }
  intros ui o s2 r2 Hc Ho Hh H2.
  destruct (render_checked rt ui o s1 Hc) as (s1' & _ & _ & _ & Hs1 & E).
  rewrite E, Hs1 in H2 by (by rewrite Ho). clear E.
  unfold resolved_container in H2. rewrite Ho in H2. unfold bind at 1 in H2.
  assert (Htr : rr_container b ∈ mountedContainers s1).
  { rewrite Hm. apply Hs. apply list_elem_of_fmap. by eexists; split; [|exact Hin]. }
  rewrite obtain_root_tracked in H2 by done.
  rewrite He in H2. destruct Hs as [Hnd _].
  pose proof (find_root_elem _ _ Hnd Hin) as Hf. simpl in Hf.
  rewrite Hf in H2. simpl in H2.
  rewrite (renderRoot_run rt ui _ root) in H2 by done. cbv zeta in H2.
  unfold handle_call in H2. simpl in H2. rewrite Hh in H2.
  injection H2 as <- <-. simpl. split_and!; try done.
  intros b2. destruct (rt_throws rt _ _); [done|]. by intros [= <-].
Qed.

Lemma unmount_keeps_container_tracked_witness :
  let s1 := fst (unmount refuses_unmounted first_bundle after_first_render) in
  let out := render refuses_unmounted (Markup "<span>again</span>")
               (with_container 2) s1 in
  rtLog s1 = [CreateRoot 2; RootRender 0 (Markup "<span>hi</span>"); RootUnmount 0] ∧
  snd out = Throw (Thrown (RootRender 0 (Markup "<span>again</span>"))) ∧
  allocatedRoots (fst out) = [plain_root] ∧
  rtLog (fst out) = rtLog s1 ++ [RootRender 0 (Markup "<span>again</span>")].
Proof.
  intros s1 out.
  assert (Hs : store_bijection after_first_render).
  { apply (run_store_bijection (quiet_runtime false)
             [CallRender (Markup "<span>hi</span>") no_options] empty_document),
      initial_store_bijection. }
  assert (Hb : bundle_recorded after_first_render first_bundle).
  { exists plain_root. split; [reflexivity|]. apply list_elem_of_here. }
  destruct (unmount_keeps_container_tracked refuses_unmounted first_bundle
              after_first_render s1
              (snd (unmount refuses_unmounted first_bundle after_first_render))
              Hs Hb eq_refl) as (_ & _ & root & Hroot & _ & Hre).
  injection Hroot as <-.
  destruct (Hre (Markup "<span>again</span>") (with_container 2) (fst out)
              (snd out) eq_refl eq_refl eq_refl eq_refl)
    as (_ & Hal & Hlog & _).
  split; [reflexivity|]. split; [reflexivity|]. split; [exact Hal | exact Hlog].
Defined.

(** X7: what a [render] that builds the root-handle asks of the runtime,
    when it returns.  For a container that is not tracked the handle is
    the one the factory builds, legacy or concurrent as [legacyRoot] says,
    and the runtime calls are: with a legacy root the single-shot render,
    or hydrate; with a concurrent root [createRoot] followed by the root's
    [render], or, when hydrating, [hydrateRoot] alone, the [hydrate]
    method of the handle calling nothing.  Every call carries the
    decorated UI. *)
Theorem first_render_trace (rt : runtime) (ui : element) (o : render_options)
    (s s' : state) (b : render_result) :
  render rt ui o s = (s', Ok b) →
  resolved_container o s ∉ mountedContainers s →
  let h := next_root (resolved_container o s) (opt_legacyRoot o) (opt_hydrate o) s in
  rr_container b = resolved_container o s ∧
  rr_root b = Some h ∧
  rtLog s' =
    rtLog s ++
      first_render_calls (resolved_container o s) (opt_legacyRoot o)
        (opt_hydrate o) h
        (decoration_spec (reactStrictMode s) (opt_wrapper o) ui).
Proof.
  intros H Hnot h.
  pose proof (render_Ok_inv rt _ _ _ _ _ H) as [Hc _].
  destruct (render_checked rt ui o s Hc)
    as (s1 & [[Hm He] Hr] & [Hl Hcfg] & _ & _ & E).
  rewrite E in H. clear E.
  apply bind_Ok_inv in H as (s2 & root & H1 & H2).
  rewrite obtain_root_untracked in H1 by (by rewrite Hm).
  cbv zeta in H1. unfold next_root in H1. rewrite Hr, Hcfg, Hl in H1.
  fold h in H1 |- *.
  unfold first_render_calls.
  destruct (opt_legacyRoot o) eqn:Hleg.
  - injection H1 as <- <-.
    rewrite (renderRoot_run rt ui _ h) in H2 by done.
    cbv zeta in H2. unfold handle_call, mount_call in H2. simpl in H2.
    rewrite Hcfg, Hl in H2.
    destruct (opt_hydrate o);
      (destruct (rt_throws rt _ _); [done|]); injection H2 as <- <-; done.
  - destruct (rt_throws rt (rtLog s) _); [done|]. injection H1 as <- <-.
    rewrite (renderRoot_run rt ui _ h) in H2 by done.
    cbv zeta in H2. unfold handle_call, mount_call, creation_call in H2 |- *.
    simpl in H2. rewrite Hcfg in H2.
    destruct (opt_hydrate o); simpl in H2.
    + by injection H2 as <- <-.
    + destruct (rt_throws rt _ _); [done|]. injection H2 as <- <-.
      split_and!; try done. simpl. by rewrite <-app_assoc.
Qed.

Lemma first_render_trace_witness :
  rtLog (fst (render (quiet_runtime true) (Markup "<span>hi</span>")
                (with_hydrate 2) document_with_divs))
  = [HydrateRoot 2 (Markup "<span>hi</span>")] ∧
  rtLog (fst (render (quiet_runtime true) (Markup "<span>hi</span>")
                (set_legacyRoot true (with_container 2)) document_with_divs))
  = [LegacyRender (Markup "<span>hi</span>") 2].
Proof.
  split.
  - destruct (first_render_trace (quiet_runtime true) (Markup "<span>hi</span>")
                (with_hydrate 2) document_with_divs
                (fst (render (quiet_runtime true) (Markup "<span>hi</span>")
                        (with_hydrate 2) document_with_divs))
                {| rr_container := 2; rr_baseElement := 2;
                   rr_root := Some {| root_id := 0;
                                      root_flavour := ConcurrentRoot true;
                                      root_container := 2 |};
                   rr_wrapper := None; rr_queries := None |}
                eq_refl) as (_ & _ & Hlog).
    + vm_compute. discriminate.
    + exact Hlog.
  - destruct (first_render_trace (quiet_runtime true) (Markup "<span>hi</span>")
                (set_legacyRoot true (with_container 2)) document_with_divs
                (fst (render (quiet_runtime true) (Markup "<span>hi</span>")
                        (set_legacyRoot true (with_container 2))
                        document_with_divs))
                {| rr_container := 2; rr_baseElement := 2;
                   rr_root := Some {| root_id := 0;
                                      root_flavour := LegacyRoot;
                                      root_container := 2 |};
                   rr_wrapper := None; rr_queries := None |}
                eq_refl) as (_ & _ & Hlog).
    + vm_compute. discriminate.
    + exact Hlog.
Defined.

(** X8: on a container that is tracked, [legacyRoot] has no effect: the
    root-handle that was recorded is used, of whichever kind it is, and
    the call does exactly what it does without the option.  (The runtime
    has the single-shot API, so the capability check passes.) *)
Theorem render_tracked_ignores_legacyRoot (rt : runtime) (ui : element)
    (o : render_options) (legacyRoot : bool) (c : node) (s : state) :
  single_shot_api rt = true →
  opt_container o = Val c →
  c ∈ mountedContainers s →
  render rt ui (set_legacyRoot legacyRoot o) s = render rt ui o s.
Proof.
  intros Ha Ho Hin.
  assert (Hchk : ∀ o', legacy_check_fails rt o' = false).
  { intros o'. unfold legacy_check_fails. rewrite Ha. apply andb_false_r. }
  rewrite !render_unfold, !Hchk. simpl.
  unfold resolved_baseElement. simpl. rewrite Ho.
  unfold bind. rewrite !resolve_container_given.
  by rewrite !obtain_root_tracked.
Qed.

Lemma render_tracked_ignores_legacyRoot_witness :
  render (quiet_runtime true) (Markup "<span>bye</span>")
    (set_legacyRoot true (with_container 2)) after_first_render
  = render (quiet_runtime true) (Markup "<span>bye</span>")
      (with_container 2) after_first_render ∧
  rtLog (fst (render (quiet_runtime true) (Markup "<span>bye</span>")
                (set_legacyRoot true (with_container 2)) after_first_render))
  = [CreateRoot 2; RootRender 0 (Markup "<span>hi</span>");
     RootRender 0 (Markup "<span>bye</span>")].
Proof.
  split; [|reflexivity].
  apply (render_tracked_ignores_legacyRoot (quiet_runtime true) _
           (with_container 2) true 2 after_first_render).
  - reflexivity.
  - reflexivity.
  - vm_compute. reflexivity.
Defined.

(** *** Containers that [render] creates *)

#[local] Instance allocator_grows_refl : Reflexive allocator_grows.
Proof. intros s. unfold allocator_grows. lia. Qed.
#[local] Instance allocator_grows_trans : Transitive allocator_grows.
Proof. intros s1 s2 s3. unfold allocator_grows. lia. Qed.

Lemma same_dom_allocator_grows s s' : same_dom s s' → allocator_grows s s'.
Proof. intros (_ & _ & Hn). unfold allocator_grows. lia. Qed.

Lemma only_runtime_allocator_grows s s' : only_runtime s s' → allocator_grows s s'.
Proof. intros (_ & Hd & _). by apply same_dom_allocator_grows. Qed.

Section Allocator.

Variable rt : runtime.

Lemma render_allocator_grows ui o : preserves allocator_grows (render rt ui o).
Proof.
  intros s s' r H. destruct (legacy_check_fails rt o) eqn:Hc.
  - rewrite render_unchecked in H by done. by injection H as <- _.
  - destruct (render_dom rt _ _ _ _ _ Hc H) as (s1 & c & H1 & Hd & _).
    destruct (resolve_container_run o s) as (s1' & H1' & _ & _ & Hg).
    rewrite H1 in H1'. injection H1' as <- _.
    etrans; [exact Hg|]. by apply same_dom_allocator_grows.
Qed.

Lemma cleanup_allocator_grows : preserves allocator_grows (cleanup rt).
Proof.
  intros s s' r. rewrite cleanup_unfold.
  assert (Hs : preserves allocator_grows (start_all rt (mountedRootEntries s))).
  { unfold start_all, cleanup_entry, act. frame.
    - eapply preserves_weaken; [apply only_runtime_allocator_grows|].
      apply root_unmount_only_runtime.
    - intros s0 s0' r0. unfold removeChild.
      destruct (decide _); intros [= <- _]; unfold allocator_grows; simpl; lia. }
  destruct (start_all rt (mountedRootEntries s) s) as [s1 [settled|x]] eqn:E;
    apply Hs in E.
  - destruct (Promise_all settled); by intros [= <- _].
  - by intros [= <- _].
Qed.

Lemma perform_allocator_grows c s s' o :
  perform rt c s = (s', o) → allocator_grows s s'.
Proof.
  destruct c; simpl.
  - destruct (render rt ui options s) as [s1 r] eqn:E. intros [= <- _].
    by apply render_allocator_grows in E.
  - rewrite renderHook_eq.
    destruct (render rt _ (renderOptions options) s) as [s1 r] eqn:E.
    apply render_allocator_grows in E. by destruct r; intros [= <- _].
  - destruct (rerender rt b ui s) as [s1 r] eqn:E. intros [= <- _].
    by apply rerender_only_runtime, only_runtime_allocator_grows in E.
  - destruct (unmount rt b s) as [s1 r] eqn:E. intros [= <- _].
    by apply unmount_only_runtime, only_runtime_allocator_grows in E.
  - destruct (hook_rerender rt h p s) as [s1 r] eqn:E. intros [= <- _].
    by apply hook_rerender_only_runtime, only_runtime_allocator_grows in E.
  - destruct (hook_unmount rt h s) as [s1 r] eqn:E. intros [= <- _].
    by apply hook_unmount_only_runtime, only_runtime_allocator_grows in E.
  - destruct (cleanup rt s) as [s1 r] eqn:E. intros [= <- _].
    by apply cleanup_allocator_grows in E.
Qed.

Lemma run_allocator_grows calls s s' outs :
  run rt calls s = (s', outs) → allocator_grows s s'.
Proof.
  revert s s' outs. induction calls as [|c calls IH]; intros s s' outs.
  - by intros [= <- _].
  - simpl. destruct (perform rt c s) as [s1 o1] eqn:E1.
    destruct (run rt calls s1) as [s2 os] eqn:E2. intros [= <- _].
    etrans; [by eapply perform_allocator_grows | by eapply IH].
Qed.

Lemma render_Ok_default_container ui o s s' b :
  render rt ui o s = (s', Ok b) → truthy (opt_container o) = false →
  rr_container b = nextNode s ∧ nextNode s < nextNode s'.
Proof.
  intros H Ht. pose proof (render_Ok_inv rt _ _ _ _ _ H) as [Hc _].
  destruct (render_dom rt _ _ _ _ _ Hc H) as (s1 & c & H1 & (_ & _ & Hn) & Hb).
  destruct (Hb b eq_refl) as [-> _].
  rewrite resolve_container_default in H1 by done.
  injection H1 as <- <-. simpl in Hn. split; [done|]. lia.
Qed.

End Allocator.

(** X9: every [render] without a container gets a container of its own.
    Two such renders that return, with any calls of the public surface in
    between ([cleanup] included), work on different elements, the later
    one on an element that did not exist when the earlier one returned. *)
Theorem default_containers_distinct (rt : runtime) (ui1 ui2 : element)
    (o1 o2 : render_options) (calls : list call) (outs : list outcome)
    (s s1 s2 s3 : state) (b1 b2 : render_result) :
  truthy (opt_container o1) = false →
  truthy (opt_container o2) = false →
  render rt ui1 o1 s = (s1, Ok b1) →
  run rt calls s1 = (s2, outs) →
  render rt ui2 o2 s2 = (s3, Ok b2) →
  rr_container b1 < rr_container b2 ∧ nextNode s1 ≤ rr_container b2.
Proof.
  intros Ht1 Ht2 H1 Hrun H2.
  destruct (render_Ok_default_container rt _ _ _ _ _ H1 Ht1) as [-> Hlt].
  destruct (render_Ok_default_container rt _ _ _ _ _ H2 Ht2) as [-> _].
  apply run_allocator_grows in Hrun. unfold allocator_grows in Hrun. lia.
Qed.

Lemma default_containers_distinct_witness :
  let r1 := render (quiet_runtime false) (Markup "<span>hi</span>") no_options
              empty_document in
  let mid := run (quiet_runtime false) [CallCleanup] (fst r1) in
  let r2 := render (quiet_runtime false) (Markup "<p>there</p>") no_options
              (fst mid) in
  ∃ b1 b2, snd r1 = Ok b1 ∧ snd r2 = Ok b2 ∧ rr_container b1 < rr_container b2.
Proof.
  intros r1 mid r2.
  assert (E1 : render (quiet_runtime false) (Markup "<span>hi</span>") no_options
                 empty_document = (fst r1, Ok first_bundle))
    by (vm_compute; reflexivity).
  assert (Em : run (quiet_runtime false) [CallCleanup] (fst r1)
               = (fst mid, snd mid))
    by (vm_compute; reflexivity).
  assert (E2 : render (quiet_runtime false) (Markup "<p>there</p>") no_options
                 (fst mid)
               = (fst r2,
                  Ok {| rr_container := 3; rr_baseElement := 0;
                        rr_root := Some {| root_id := 1;
                                           root_flavour := ConcurrentRoot false;
                                           root_container := 3 |};
                        rr_wrapper := None; rr_queries := None |}))
    by (vm_compute; reflexivity).
  destruct (default_containers_distinct (quiet_runtime false) _ _ no_options
              no_options [CallCleanup] (snd mid) empty_document (fst r1)
              (fst mid) (fst r2) _ _ eq_refl eq_refl E1 Em E2) as [Hlt _].
  eexists _, _. split; [vm_compute; reflexivity|].
  split; [vm_compute; reflexivity|]. exact Hlt.
Defined.

(** X10: the [rerender] of a hook result mounts the test component of the
    same callback with the new props, wrapped as the options of
    [renderHook] said, through the root-handle that [renderHook] mounted
    the component with; it makes that one runtime call and changes
    nothing else. *)
Theorem hook_rerender_mounts_test_component (rt : runtime) (renderCallback : nat)
    (o : hook_options) (p : jsopt nat) (s s1 s2 : state) (h : hook_result)
    (r : result unit) :
  store_bijection s →
  renderHook rt renderCallback o s = (s1, Ok h) →
  hook_rerender rt h p s1 = (s2, r) →
  only_runtime s1 s2 ∧
  hook_callback h = renderCallback ∧
  ∃ root, rr_root (hook_base h) = Some root ∧
          {| entry_container := rr_container (hook_base h); entry_root := root |}
            ∈ mountedRootEntries s1 ∧
          rtLog s2 =
            rtLog s1 ++
              [mount_call root
                 (decoration_spec (reactStrictMode s1)
                    (opt_wrapper (renderOptions o))
                    (JSX (TestComponent renderCallback)
                       (RenderCallbackProps p)))].
Proof.
  intros Hs H1 H2.
  split; [by apply hook_rerender_only_runtime in H2|].
  rewrite renderHook_eq in H1.
  destruct (render rt _ (renderOptions o) s) as [s1' [b|e]] eqn:E; [|done].
  injection H1 as <- <-. simpl in *. split; [done|].
  destruct (render_bundle_recorded rt _ _ _ _ _ Hs E) as (root & Hroot & Hin).
  exists root. split; [done|]. split; [done|].
  assert (Hw : rr_wrapper b = opt_wrapper (renderOptions o)).
  { by apply render_Ok_inv in E as (_ & ? & ? & ? & ? & _ & _ & _ & ->). }
  unfold hook_rerender in H2. simpl in H2.
  rewrite (rerender_eq rt _ _ _ root Hroot), root_render_eq in H2.
  apply runtime_call_inv in H2 as [-> _]. simpl. by rewrite Hw.
Qed.

Lemma hook_rerender_mounts_test_component_witness :
  let o := {| initialProps := Val 1; renderOptions := no_options |} in
  let r1 := renderHook (quiet_runtime false) 5 o empty_document in
  ∃ h, snd r1 = Ok h ∧
       rtLog (fst (hook_rerender (quiet_runtime false) h (Val 2) (fst r1)))
       = [CreateRoot 2;
          RootRender 0 (JSX (TestComponent 5) (RenderCallbackProps (Val 1)));
          RootRender 0 (JSX (TestComponent 5) (RenderCallbackProps (Val 2)))].
Proof.
  intros o r1.
  exists {| hook_callback := 5; hook_base := first_bundle |}.
  split; [reflexivity|].
  destruct (hook_rerender_mounts_test_component (quiet_runtime false) 5 o (Val 2)
              empty_document (fst r1)
              (fst (hook_rerender (quiet_runtime false)
                      {| hook_callback := 5; hook_base := first_bundle |}
                      (Val 2) (fst r1)))
              {| hook_callback := 5; hook_base := first_bundle |}
              (snd (hook_rerender (quiet_runtime false)
                      {| hook_callback := 5; hook_base := first_bundle |}
                      (Val 2) (fst r1)))
              (initial_store_bijection _ _ _ _) eq_refl eq_refl)
    as (_ & _ & root & Hroot & _ & Hlog).
  injection Hroot as <-. exact Hlog.
Defined.

(** *** Failures while the root is created *)

Lemma renderRoot_not_creation rt ui o s s' x :
  renderRoot rt ui o s = (s', Throw (Thrown x)) → is_creation_call x = false.
Proof.
  destruct (ro_root o) as [h|] eqn:Hr.
  - intros H. apply (renderRoot_throws rt _ _ h) in H; [|done].
    by destruct H as [[=]|(y & [= ->] & Hy & _)].
  - unfold renderRoot. rewrite Hr. unfold bind at 1.
    destruct (ro_hydrate o); unfold bind at 1; by rewrite decorated_eq.
Qed.

(** X11: when the runtime throws while the root is created ([createRoot]
    or [hydrateRoot]), [render] passes the exception on and records
    nothing: the store and the list of root-handles are as they were.  A
    container that [render] had created for the call is nevertheless in
    the document, under the base element, and since no entry has it, a
    [cleanup] that resolves leaves it there. *)
Theorem render_creation_failure_records_nothing (rt : runtime) (ui : element)
    (o : render_options) (s s' : state) (x : rt_call) :
  render rt ui o s = (s', Throw (Thrown x)) →
  is_creation_call x = true →
  mountedRootEntries s' = mountedRootEntries s ∧
  mountedContainers s' = mountedContainers s ∧
  allocatedRoots s' = allocatedRoots s ∧
  (truthy (opt_container o) = false →
   parentNode s' !! nextNode s = Some (resolved_baseElement o) ∧
   ∀ s2, nextNode s ∉ tracked_containers s →
         cleanup rt s' = (s2, Ok tt) →
         parentNode s2 !! nextNode s = Some (resolved_baseElement o)).
Proof.
  intros H Hx.
  destruct (legacy_check_fails rt o) eqn:Hc.
  { by rewrite render_unchecked in H. }
  assert (Hreg : same_registry s s').
  { destruct (render_checked rt ui o s Hc) as (s1 & Hreg1 & _ & _ & _ & E).
    rewrite E in H.
    apply bind_inv in H as [(s2 & root & _ & H2)|(e & H1 & [= <-])].
    - apply renderRoot_not_creation in H2. congruence.
    - apply obtain_root_throws in H1 as [Hreg2 _]. by etrans. }
  destruct Hreg as [[Hm He] Hr]. split_and!; try done.
  intros Ht.
  destruct (render_dom rt _ _ _ _ _ Hc H) as (s1 & c & H1 & (Hp & _) & _).
  rewrite resolve_container_default in H1 by done. injection H1 as <- <-.
  simpl in Hp.
  assert (Hpar : parentNode s' !! nextNode s = Some (resolved_baseElement o)).
  { rewrite Hp. apply lookup_insert_eq. }
  split; [done|]. intros s2 Hnot Hcl.
  apply cleanup_Ok in Hcl as (_ & _ & ->).
  rewrite foldl_detach_untracked; [done|].
  unfold tracked_containers in *. by rewrite He.
Qed.

Lemma render_creation_failure_records_nothing_witness :
  let out := render creation_fails (Markup "<span>hi</span>") no_options
               empty_document in
  snd out = Throw (Thrown (CreateRoot 2)) ∧
  mountedRootEntries (fst out) = [] ∧
  parentNode (fst out) !! 2 = Some document_body ∧
  parentNode (fst (cleanup creation_fails (fst out))) !! 2 = Some document_body.
Proof.
  intros out.
  destruct (render_creation_failure_records_nothing creation_fails
              (Markup "<span>hi</span>") no_options empty_document (fst out)
              (CreateRoot 2) eq_refl eq_refl) as (He & _ & _ & Hdiv).
  destruct (Hdiv eq_refl) as [Hp Hcl].
  split; [reflexivity|]. split; [exact He|]. split; [exact Hp|].
  apply Hcl; [|reflexivity]. intros Hin. inversion Hin.
Defined.

(** X12: a second [render] with [hydrate: true] into a container whose
    concurrent root was built for hydration does nothing at all: the
    [hydrate] method of the handle is empty, so the runtime is not called,
    the new UI description is never handed to it, and the state is
    unchanged; the result is returned all the same. *)
Theorem render_hydrate_again_is_silent (rt : runtime) (ui : element)
    (o : render_options) (c : node) (h : root_handle) (s : state) :
  legacy_check_fails rt o = false →
  opt_container o = Val c →
  opt_hydrate o = true →
  c ∈ mountedContainers s →
  find_root c (mountedRootEntries s) = Some h →
  root_flavour h = ConcurrentRoot true →
  render rt ui o s
  = (s, Ok {| rr_container := c;
              rr_baseElement := resolved_baseElement o;
              rr_root := Some h;
              rr_wrapper := opt_wrapper o;
              rr_queries := opt_queries o |}).
Proof.
  intros Hc Ho Hh Hin Hf Hk.
  destruct (render_checked rt ui o s Hc) as (s1 & _ & _ & _ & Hs1 & E).
  rewrite E, Hs1 by (by rewrite Ho). clear E.
  unfold resolved_container. rewrite Ho. unfold bind at 1.
  rewrite obtain_root_tracked, Hf by done.
  rewrite (renderRoot_run rt ui _ h) by done. cbv zeta.
  unfold handle_call. simpl. by rewrite Hh, Hk.
Qed.

Lemma render_hydrate_again_is_silent_witness :
  let out := render (quiet_runtime false) (Markup "<span>other</span>")
               (with_hydrate 2) after_hydrating_render in
  fst out = after_hydrating_render ∧
  rtLog (fst out) = [HydrateRoot 2 (Markup "<span>hi</span>")] ∧
  ∃ b, snd out = Ok b.
Proof.
  intros out.
  assert (E := render_hydrate_again_is_silent (quiet_runtime false)
                 (Markup "<span>other</span>") (with_hydrate 2) 2
                 {| root_id := 0; root_flavour := ConcurrentRoot true;
                    root_container := 2 |}
                 after_hydrating_render eq_refl eq_refl eq_refl).
  assert (Hin : 2 ∈ mountedContainers after_hydrating_render)
    by (vm_compute; reflexivity).
  specialize (E Hin eq_refl eq_refl).
  split; [exact (f_equal fst E)|]. split; [reflexivity|].
  eexists. exact (f_equal snd E).
Defined.

(** *** The lookup of the reuse branch *)

(** X13: the [forEach] of the reuse branch finds nothing exactly when no
    entry has the container, and otherwise returns the root of the last
    entry that has it: it does not stop at the first match. *)
Theorem find_root_last_entry (c : node) (l : list root_entry) :
  (find_root c l = None ↔ c ∉ entry_container <$> l) ∧
  ∀ before e after,
    l = before ++ e :: after →
    entry_container e = c →
    c ∉ entry_container <$> after →
    find_root c l = Some (entry_root e).
Proof.
  split; [apply find_root_None|].
  intros before e after -> He. revert before.
  induction after as [|x after IH] using rev_ind; intros before Hnot.
  - by rewrite find_root_snoc, decide_True.
  - rewrite fmap_app, not_elem_of_app in Hnot. destruct Hnot as [Hnot Hx].
    simpl in Hx. rewrite list_elem_of_singleton in Hx.
    rewrite app_comm_cons, app_assoc, find_root_snoc.
    rewrite decide_False by congruence. by apply IH.
Qed.

Lemma find_root_last_entry_witness :
  find_root 2
    [{| entry_container := 2; entry_root := plain_root |};
     {| entry_container := 3; entry_root := plain_root |};
     {| entry_container := 2;
        entry_root := {| root_id := 9; root_flavour := LegacyRoot;
                         root_container := 2 |} |};
     {| entry_container := 4; entry_root := plain_root |}]
  = Some {| root_id := 9; root_flavour := LegacyRoot; root_container := 2 |}.
Proof.
  destruct (find_root_last_entry 2
              [{| entry_container := 2; entry_root := plain_root |};
               {| entry_container := 3; entry_root := plain_root |};
               {| entry_container := 2;
                  entry_root := {| root_id := 9; root_flavour := LegacyRoot;
                                   root_container := 2 |} |};
               {| entry_container := 4; entry_root := plain_root |}])
    as [_ H].
  apply (H [{| entry_container := 2; entry_root := plain_root |};
            {| entry_container := 3; entry_root := plain_root |}]
           {| entry_container := 2;
              entry_root := {| root_id := 9; root_flavour := LegacyRoot;
                               root_container := 2 |} |}
           [{| entry_container := 4; entry_root := plain_root |}]).
  - reflexivity.
  - reflexivity.
  - intros Hin. apply list_elem_of_singleton in Hin. discriminate Hin.
Defined.

(** *** The [asyncWrapper] *)

(** X14: [asyncWrapper] runs the callback with the act-environment flag
    off and puts the flag back to what it was before the call, whether the
    callback returns or throws and whatever the callback did to the flag;
    the outcome of the callback and what it did to the adapter are passed
    on as they are.  Wrapping twice is wrapping once. *)
Theorem asyncWrapper_restores {A : Type} (cb : W A) (w : act_world) :
  (∀ w' r, asyncWrapper cb w = (w', r) →
     IS_REACT_ACT_ENVIRONMENT w' = IS_REACT_ACT_ENVIRONMENT w ∧
     ∃ w1, cb {| IS_REACT_ACT_ENVIRONMENT := false;
                 adapter_state := adapter_state w |} = (w1, r) ∧
           adapter_state w' = adapter_state w1) ∧
  asyncWrapper (asyncWrapper cb) w = asyncWrapper cb w.
Proof.
  split.
  - intros w' r. unfold asyncWrapper, setReactActEnvironment,
      getIsReactActEnvironment.
    destruct (cb _) as [w1 r1] eqn:E. intros [= <- <-]. simpl.
    split; [done|]. by exists w1.
  - unfold asyncWrapper, setReactActEnvironment, getIsReactActEnvironment.
    simpl. by destruct (cb _) as [w1 r1].
Qed.

Lemma asyncWrapper_restores_witness :
  let w := {| IS_REACT_ACT_ENVIRONMENT := false; adapter_state := empty_document |} in
  asyncWrapper rude_callback w = (w, Throw (JsError "boom")) ∧
  IS_REACT_ACT_ENVIRONMENT (fst (asyncWrapper rude_callback w)) = false.
Proof.
  intros w.
  destruct (asyncWrapper_restores rude_callback w) as [H _].
  destruct (H (fst (asyncWrapper rude_callback w))
              (snd (asyncWrapper rude_callback w)) eq_refl) as [Hflag _].
  split; [reflexivity | exact Hflag].
Defined.

(** *** Renders that overlap *)

(** The cut is faithful: the two halves, run one after the other, are
    [render]. *)
Lemma render_cut rt ui o s :
  render rt ui o s =
    (let* p := render_until_await rt ui o in render_after_await rt ui o p) s.
Proof.
  rewrite render_unfold. unfold render_until_await.
  destruct (legacy_check_fails rt o); [done|].
  unfold obtain_root, bind, gets, ret, modify. simpl.
  destruct (resolve_container _ _ s) as [s1 [c|e]]; [|done].
  destruct (bool_decide (c ∈ mountedContainers s1)); simpl; [done|].
  by destruct (if opt_legacyRoot o then _ else _) as [s2 [h|e]].
Qed.

(** A [render] that is awaited before the next call is a [Call] followed
    by its [Continue]. *)
Lemma overlap_awaited rt ui o events s :
  overlap rt (Call ui o :: Continue 0 :: events) [] s =
    let '(s1, r) := render rt ui o s in
    let '(s2, outs, still) := overlap rt events [] s1 in
    (s2, r :: outs, still).
Proof.
  rewrite render_cut. unfold bind. simpl.
  destruct (render_until_await rt ui o s) as [s1 [p|e]]; simpl.
  - by destruct (render_after_await rt ui o p s1) as [s2 r].
  - by destruct (overlap rt events [] s1) as [[s2 outs] still].
Qed.

(** What two overlapping renders into one container leave: two
    root-handles for the container and two entries for the one member of
    the set. *)
Lemma two_overlapping_renders_run :
  let '(s, outs, still) :=
    overlap (quiet_runtime false) two_overlapping_renders [] document_with_divs in
  still = [] ∧
  root_container <$> allocatedRoots s = [2; 2] ∧
  root_id <$> allocatedRoots s = [0; 1] ∧
  tracked_containers s = [2; 2] ∧
  elements (mountedContainers s) = [2] ∧
  rtLog s = [CreateRoot 2; CreateRoot 2;
             RootRender 0 (Markup "<span>hi</span>");
             RootRender 1 (Markup "<span>bye</span>")].
Proof. vm_compute. repeat split. Qed.

(** C1 as the specification states it fails when renders overlap: a
    second [render] into a container, called while the first is suspended
    at its await, finds the container not yet in the set and builds a
    second root-handle for it. *)
Lemma overlapping_renders_build_two_roots : ¬ one_root_per_container_overlapping.
Proof.
  intros H.
  assert (E : overlap (quiet_runtime false) two_overlapping_renders []
                (initial_state false {[0 := 1; 2 := 0]}
                   {[0 := "body"; 1 := "html"; 2 := "div"; 3 := "div"]} 4)
              = (fst (fst (overlap (quiet_runtime false) two_overlapping_renders []
                             document_with_divs)),
                 snd (fst (overlap (quiet_runtime false) two_overlapping_renders []
                             document_with_divs)), []))
    by (vm_compute; reflexivity).
  apply H in E. vm_compute in E.
  apply NoDup_cons in E as [Hnot _]. apply Hnot. apply list_elem_of_here.
Qed.

(** C8 as the specification states it fails when renders overlap: both
    renders record an entry, so the one member of the set has two
    entries. *)
Lemma overlapping_renders_break_bijection : ¬ store_bijection_overlapping.
Proof.
  intros H.
  assert (E : overlap (quiet_runtime false) two_overlapping_renders []
                (initial_state false {[0 := 1; 2 := 0]}
                   {[0 := "body"; 1 := "html"; 2 := "div"; 3 := "div"]} 4)
              = (fst (fst (overlap (quiet_runtime false) two_overlapping_renders []
                             document_with_divs)),
                 snd (fst (overlap (quiet_runtime false) two_overlapping_renders []
                             document_with_divs)), []))
    by (vm_compute; reflexivity).
  apply H in E. destruct E as [Hnd _]. vm_compute in Hnd.
  apply NoDup_cons in Hnd as [Hnot _]. apply Hnot. apply list_elem_of_here.
Qed.
